(** * Sunbiz search route: extractor, cache and query handler

    A shallow embedding of the search route (the module that exports [GET]):
    the in-memory cache ([getCache], [setCache]), the query normaliser, the
    HTML extractor [parseSunbiz] and the request handler [GET].

    Conventions of the embedding.
    - A JavaScript string is a Rocq [string] whose characters are UTF-16
      code units below 256 (the Latin-1 range).  On that range [trim], the
      case-insensitive regular expression and [encodeURIComponent] are
      written out exactly.
    - A JavaScript number is a [JSNumber]: [NaN], an infinity, or an exact
      decimal [m * 10^e].  Rounding to binary64 is not modelled; it cannot
      change the clamped limit unless the requested limit is a non-integer
      strictly between 1 and 10 with more digits than a double holds.
    - The platform is a parameter, a [Platform]: [cheerio_load] (the HTML
      parser, total on strings), [new_URL] (the URL constructor, [None] when
      it throws [TypeError]), [toLowerCase] (which may change the length of
      a string) and [stackDepth] (the nesting up to which the call stack
      lets the recursive [.text()] descend; beyond it [.text()] throws
      [RangeError]).  The clock and the network are the per-request [Env].
    - The module-level [CACHE] is threaded explicitly through a small
      state-and-exception monad, together with a trace of the effects. *)

From Stdlib Require Import List String Ascii ZArith Bool Lia Arith DecimalString.
Import ListNotations.
Local Open Scope string_scope.
Local Open Scope Z_scope.

Set Implicit Arguments.
Set Warnings "-register-all".

(** ** JavaScript strings *)

Module JSString.

Definition code (c : ascii) : Z := Z.of_N (N_of_ascii c).

Definition chr (z : Z) : ascii := ascii_of_N (Z.to_N z).

(** [WhiteSpace] and [LineTerminator] code units below 256. *)
Definition isWhiteSpace (c : ascii) : bool :=
  let n := code c in
  ((9 <=? n) && (n <=? 13)) || (n =? 32) || (n =? 160).

Fixpoint dropWhile (p : ascii -> bool) (l : list ascii) : list ascii :=
  match l with
  | [] => []
  | c :: r => if p c then dropWhile p r else l
  end.

Definition trimStart (l : list ascii) : list ascii := dropWhile isWhiteSpace l.

Definition trimEnd (l : list ascii) : list ascii := rev (trimStart (rev l)).

(** [String.prototype.trim] *)
Definition trim (s : string) : string :=
  string_of_list_ascii (trimEnd (trimStart (list_ascii_of_string s))).

Definition isUpper (c : ascii) : bool :=
  let n := code c in
  ((65 <=? n) && (n <=? 90)) ||
  ((192 <=? n) && (n <=? 222) && negb (n =? 215)).

Definition lowerChar (c : ascii) : ascii :=
  if isUpper c then chr (code c + 32) else c.

(** [String.prototype.toLowerCase] on a string of code units below 256,
    where it maps unit by unit: the lower-casing of the sample platforms.
    The handler calls the [toLowerCase] of its platform. *)
Definition toLowerCaseLatin1 (s : string) : string :=
  string_of_list_ascii (map lowerChar (list_ascii_of_string s)).

(** Canonicalisation of a case-insensitive, non-unicode regular
    expression against an ASCII pattern: only the ASCII letters fold. *)
Definition foldAscii (c : ascii) : ascii :=
  let n := code c in
  if (65 <=? n) && (n <=? 90) then chr (n + 32) else c.

Fixpoint prefixCI (p l : list ascii) : bool :=
  match p, l with
  | [], _ => true
  | _ :: _, [] => false
  | a :: p', b :: l' =>
      Ascii.eqb (foldAscii a) (foldAscii b) && prefixCI p' l'
  end.

Fixpoint containsCI (p l : list ascii) : bool :=
  prefixCI p l ||
  match l with
  | [] => false
  | _ :: l' => containsCI p l'
  end.

Fixpoint prefixCS (p l : list ascii) : bool :=
  match p, l with
  | [], _ => true
  | _ :: _, [] => false
  | a :: p', b :: l' => Ascii.eqb a b && prefixCS p' l'
  end.

Fixpoint containsCS (p l : list ascii) : bool :=
  prefixCS p l ||
  match l with
  | [] => false
  | _ :: l' => containsCS p l'
  end.

(** [String.prototype.includes], used for the [*=] attribute selector. *)
Definition includes (s sub : string) : bool :=
  containsCS (list_ascii_of_string sub) (list_ascii_of_string s).

(** Truthiness of a string: the empty string is falsy. *)
Definition truthy (s : string) : bool :=
  match s with
  | EmptyString => false
  | String _ _ => true
  end.

Definition hexDigit (z : Z) : ascii :=
  if z <? 10 then chr (48 + z) else chr (55 + z).

Definition percent (z : Z) : list ascii :=
  ["%"%char; hexDigit (z / 16); hexDigit (z mod 16)].

Definition isUnreserved (c : ascii) : bool :=
  let n := code c in
  ((65 <=? n) && (n <=? 90)) || ((97 <=? n) && (n <=? 122)) ||
  ((48 <=? n) && (n <=? 57)) ||
  existsb (Ascii.eqb c)
    ["-"; "_"; "."; "!"; "~"; "*"; "'"; "("; ")"]%char.

Definition encodeChar (c : ascii) : list ascii :=
  let n := code c in
  if isUnreserved c then [c]
  else if n <? 128 then percent n
  else (percent (192 + n / 64) ++ percent (128 + n mod 64))%list.

(** [encodeURIComponent]: the UTF-8 bytes of every reserved code unit,
    percent-escaped. *)
Definition encodeURIComponent (s : string) : string :=
  string_of_list_ascii (flat_map encodeChar (list_ascii_of_string s)).

End JSString.

(** ** JavaScript numbers *)

Module JSNumber.
Import JSString.

(** [Finite m e] is the number [m * 10^e].  The values built by [mk] are
    canonical: an integer is [Finite z 0], a non-integer is [Finite m e]
    with [e < 0] and [m] not a multiple of 10. *)
Inductive t : Type :=
| NaN
| Infinity (negative : bool)
| Finite (m e : Z).

Fixpoint strip (fuel : nat) (m e : Z) : Z * Z :=
  match fuel with
  | O => (m, e)
  | S f =>
      if (e <? 0) && (m mod 10 =? 0) then strip f (m / 10) (e + 1)
      else (m, e)
  end.

Definition mk (m e : Z) : t :=
  if m =? 0 then Finite 0 0
  else if 0 <=? e then Finite (m * 10 ^ e) 0
  else let (m', e') := strip (Z.to_nat (- e)) m e in Finite m' e'.

Definition ofZ (z : Z) : t := Finite z 0.

Definition negate (x : t) : t :=
  match x with
  | NaN => NaN
  | Infinity b => Infinity (negb b)
  | Finite m e => Finite (- m) e
  end.

(** [x <= y]; false as soon as one side is [NaN]. *)
Definition leb (x y : t) : bool :=
  match x, y with
  | NaN, _ | _, NaN => false
  | Infinity true, _ => true
  | _, Infinity false => true
  | Infinity false, _ => false
  | _, Infinity true => false
  | Finite m1 e1, Finite m2 e2 =>
      let k := Z.min e1 e2 in
      m1 * 10 ^ (e1 - k) <=? m2 * 10 ^ (e2 - k)
  end.

Definition isNaN (x : t) : bool :=
  match x with NaN => true | _ => false end.

(** [Math.min(x, y)] and [Math.max(x, y)] *)
Definition Math_min (x y : t) : t :=
  if isNaN x || isNaN y then NaN else if leb x y then x else y.

Definition Math_max (x y : t) : t :=
  if isNaN x || isNaN y then NaN else if leb x y then y else x.

(** *** [Number(string)]: the StringNumericLiteral grammar *)

Definition isDigit (c : ascii) : bool := (48 <=? code c) && (code c <=? 57).

Definition digitVal (c : ascii) : Z :=
  let n := code c in
  if n <=? 57 then n - 48 else if n <=? 90 then n - 55 else n - 87.

Definition isRadixDigit (radix : Z) (c : ascii) : bool :=
  let n := code c in
  (isDigit c || ((65 <=? n) && (n <=? 70)) || ((97 <=? n) && (n <=? 102)))
  && (digitVal c <? radix).

Definition digitsValue (radix : Z) (l : list ascii) : Z :=
  fold_left (fun acc c => acc * radix + digitVal c) l 0.

Fixpoint span (p : ascii -> bool) (l : list ascii) : list ascii * list ascii :=
  match l with
  | [] => ([], [])
  | c :: r =>
      if p c then let (a, b) := span p r in (c :: a, b) else ([], l)
  end.

Definition nonEmpty {A} (l : list A) : bool :=
  match l with [] => false | _ :: _ => true end.

Definition allDigits (l : list ascii) : bool := nonEmpty l && forallb isDigit l.

(** ExponentPart, or nothing, up to the end of the literal. *)
Definition exponentPart (l : list ascii) : option Z :=
  match l with
  | [] => Some 0
  | c :: r =>
      if Ascii.eqb c "e" || Ascii.eqb c "E" then
        match r with
        | "+"%char :: ds =>
            if allDigits ds then Some (digitsValue 10 ds) else None
        | "-"%char :: ds =>
            if allDigits ds then Some (- digitsValue 10 ds) else None
        | ds => if allDigits ds then Some (digitsValue 10 ds) else None
        end
      else None
  end.

(** StrUnsignedDecimalLiteral *)
Definition unsignedDecimal (l : list ascii) : t :=
  if String.eqb (string_of_list_ascii l) "Infinity" then Infinity false
  else
    let (ip, r1) := span isDigit l in
    match r1 with
    | "."%char :: r2 =>
        let (fp, r3) := span isDigit r2 in
        if nonEmpty ip || nonEmpty fp then
          match exponentPart r3 with
          | Some x =>
              mk (digitsValue 10 (ip ++ fp)%list) (x - Z.of_nat (List.length fp))
          | None => NaN
          end
        else NaN
    | _ =>
        if nonEmpty ip then
          match exponentPart r1 with
          | Some x => mk (digitsValue 10 ip) x
          | None => NaN
          end
        else NaN
    end.

Definition nonDecimal (radix : Z) (ds : list ascii) : t :=
  if nonEmpty ds && forallb (isRadixDigit radix) ds
  then ofZ (digitsValue radix ds) else NaN.

(** [Number(s)] for a string [s] *)
Definition ofString (s : string) : t :=
  match trimEnd (trimStart (list_ascii_of_string s)) with
  | [] => ofZ 0
  | "+"%char :: r => unsignedDecimal r
  | "-"%char :: r => negate (unsignedDecimal r)
  | "0"%char :: "x"%char :: r | "0"%char :: "X"%char :: r => nonDecimal 16 r
  | "0"%char :: "o"%char :: r | "0"%char :: "O"%char :: r => nonDecimal 8 r
  | "0"%char :: "b"%char :: r | "0"%char :: "B"%char :: r => nonDecimal 2 r
  | l => unsignedDecimal l
  end.

(** *** [Number::toString], radix 10 *)

Definition digitsOf (z : Z) : string :=
  NilZero.string_of_uint (N.to_uint (Z.to_N z)).

Fixpoint stripZeros (fuel : nat) (m e : Z) : Z * Z :=
  match fuel with
  | O => (m, e)
  | S f => if m mod 10 =? 0 then stripZeros f (m / 10) (e + 1) else (m, e)
  end.

Fixpoint zeros (n : nat) : string :=
  match n with O => "" | S k => String "0" (zeros k) end.

Definition positiveToString (m e : Z) : string :=
  let (s, e') := stripZeros (Z.to_nat (Z.log2 m)) m e in
  let ds := digitsOf s in
  let k := Z.of_nat (String.length ds) in
  let n := k + e' in
  if (k <=? n) && (n <=? 21) then ds ++ zeros (Z.to_nat (n - k))
  else if (0 <? n) && (n <=? 21) then
    substring 0 (Z.to_nat n) ds ++ "." ++
    substring (Z.to_nat n) (Z.to_nat (k - n)) ds
  else if (-6 <? n) && (n <=? 0) then "0." ++ zeros (Z.to_nat (- n)) ++ ds
  else
    let x := n - 1 in
    let sign := if x <? 0 then "-" else "+" in
    (if k =? 1 then ds
     else substring 0 1 ds ++ "." ++ substring 1 (Z.to_nat (k - 1)) ds)
    ++ "e" ++ sign ++ digitsOf (Z.abs x).

Definition toString (x : t) : string :=
  match x with
  | NaN => "NaN"
  | Infinity false => "Infinity"
  | Infinity true => "-Infinity"
  | Finite m e =>
      if m =? 0 then "0"
      else if m <? 0 then "-" ++ positiveToString (- m) e
      else positiveToString m e
  end.

(** *** [Array.prototype.slice(0, end)] *)

Definition truncate (m e : Z) : Z :=
  if 0 <=? e then m * 10 ^ e else Z.quot m (10 ^ (- e)).

Definition slice0 {A : Type} (l : list A) (end_ : t) : list A :=
  match end_ with
  | NaN => []
  | Infinity true => []
  | Infinity false => l
  | Finite m e =>
      let rel := truncate m e in
      let len := Z.of_nat (List.length l) in
      let final := if rel <? 0 then Z.max (len + rel) 0 else Z.min rel len in
      firstn (Z.to_nat final) l
  end.

(** An integer between [lo] and [hi]. *)
Definition integerIn (lo hi : Z) (x : t) : Prop :=
  exists z, x = Finite z 0 /\ lo <= z <= hi.

End JSNumber.

(** ** The document tree that cheerio builds *)

Module Dom.
Import JSString.

Inductive node : Type :=
| Text (data : string)
| Comment (data : string)
| Element (name : string) (attribs : list (string * string))
          (children : list node).

(** The children of the root node. *)
Definition document : Type := list node.

(** A cheerio selection: nodes in document order. *)
Definition selection : Type := list node.

Fixpoint textContent (n : node) : string :=
  match n with
  | Text d => d
  | Comment _ => ""
  | Element _ _ cs => String.concat "" (map textContent cs)
  end.

Fixpoint descendants (n : node) : list node :=
  match n with
  | Element _ _ cs => flat_map (fun c => c :: descendants c) cs
  | _ => []
  end.

(** How deep the elements below a node nest: the calls the recursive
    [.text()] stacks up on it. *)
Fixpoint depth (n : node) : nat :=
  match n with
  | Element _ _ cs => S (fold_right (fun c d => Nat.max (depth c) d) 0%nat cs)
  | _ => 0%nat
  end.

(** Every node of the document, in document order. *)
Definition nodes (doc : document) : list node :=
  flat_map (fun c => c :: descendants c) doc.

Definition isElement (tag : string) (n : node) : bool :=
  match n with
  | Element t _ _ => String.eqb t tag
  | _ => false
  end.

Fixpoint assoc (k : string) (l : list (string * string)) : option string :=
  match l with
  | [] => None
  | (k', v) :: r => if String.eqb k' k then Some v else assoc k r
  end.

Definition getAttribute (k : string) (n : node) : option string :=
  match n with
  | Element _ attribs _ => assoc k attribs
  | _ => None
  end.

(** [$(n).find(tag)]: the descendants of [n] that are [tag] elements. *)
Definition find (tag : string) (n : node) : selection :=
  filter (isElement tag) (descendants n).

(** [.first()] *)
Definition first (s : selection) : selection :=
  match s with
  | [] => []
  | n :: _ => [n]
  end.

(** [.text()]: the text of every selected node, concatenated. *)
Definition text (s : selection) : string :=
  String.concat "" (map textContent s).

(** [.attr(k)]: the attribute of the first selected node, if any. *)
Definition attr (k : string) (s : selection) : option string :=
  match s with
  | [] => None
  | n :: _ => getAttribute k n
  end.

(** [$("table tbody tr")] below one node: [inTable] says that an ancestor
    is a [table], [inBody] that an ancestor is a [tbody] inside a table. *)
Fixpoint rowsOf (inTable inBody : bool) (n : node) : list node :=
  match n with
  | Element t _ cs =>
      ((if String.eqb t "tr" && inBody then [n] else []) ++
       flat_map (rowsOf (inTable || String.eqb t "table")
                        (inBody || (inTable && String.eqb t "tbody"))) cs)%list
  | _ => []
  end.

Definition select_table_tbody_tr (doc : document) : selection :=
  flat_map (rowsOf false false) doc.

Definition isDetailAnchor (n : node) : bool :=
  isElement "a" n &&
  match getAttribute "href" n with
  | Some h => includes h "SearchResultDetail"
  | None => false
  end.

(** [$('a[href*="SearchResultDetail"]')] *)
Definition select_detail_anchors (doc : document) : selection :=
  filter isDetailAnchor (nodes doc).

End Dom.

(** ** Results, exceptions *)

Record SunbizResult : Type := mkResult {
  name : string;
  status : option string;
  documentNumber : option string;
  url : option string
}.

Record Exn : Type := mkExn { exn_name : string; exn_message : string }.

Inductive Completion (A : Type) : Type :=
| Return (a : A)
| Throw (e : Exn).

Arguments Return {A} a.
Arguments Throw {A} e.

(** What [new URL(href, base)] throws when the reference does not parse
    (the message is the one Node gives). *)
Definition InvalidURL : Exn := mkExn "TypeError" "Invalid URL".

(** What the recursive [.text()] throws when the nesting exhausts the
    call stack. *)
Definition StackOverflow : Exn :=
  mkExn "RangeError" "Maximum call stack size exceeded".

(** ** The platform *)

Record Platform : Type := mkPlatform {
  (** [cheerio.load]: the HTML parser never fails on a string. *)
  cheerio_load : string -> Dom.document;
  (** [new URL(href, base).toString()]; [None] when the constructor throws. *)
  new_URL : string -> string -> option string;
  (** [String.prototype.toLowerCase] *)
  toLowerCase : string -> string;
  (** The nesting depth up to which [.text()] returns. *)
  stackDepth : nat
}.

(** Sequencing of computations that may throw. *)
Definition bindC {A B : Type} (c : Completion A) (k : A -> Completion B)
  : Completion B :=
  match c with
  | Return a => k a
  | Throw e => Throw e
  end.

Notation "x <~ c ;; k" := (bindC c (fun x => k))
  (at level 61, c at next level, right associativity).

(** The node is shallow enough for [.text()]. *)
Definition fits (P : Platform) (n : Dom.node) : Prop :=
  (Dom.depth n <= stackDepth P)%nat.

(** [.text()] of a selection: the text of its nodes, or the [RangeError]
    when one of them nests deeper than the stack allows. *)
Definition text (P : Platform) (s : Dom.selection) : Completion string :=
  if forallb (fun n => (Dom.depth n <=? stackDepth P)%nat) s
  then Return (Dom.text s) else Throw StackOverflow.

(** [$(sel).each(callback)] for a callback that pushes onto [results] and
    may throw: the first exception ends the iteration. *)
Fixpoint each {A S : Type} (callback : S -> A -> Completion S) (s : S)
         (l : list A) : Completion S :=
  match l with
  | [] => Return s
  | x :: r =>
      match callback s x with
      | Return s' => each callback s' r
      | Throw e => Throw e
      end
  end.

(** [x || undefined] for a string [x] *)
Definition orUndefined (s : string) : option string :=
  if JSString.truthy s then Some s else None.

(** [/active|inactive|inact|in active|status/i.test(txt)] *)
Definition statusPattern (txt : string) : bool :=
  existsb
    (fun alt => JSString.containsCI (list_ascii_of_string alt)
                                    (list_ascii_of_string txt))
    ["active"; "inactive"; "inact"; "in active"; "status"].

Section Extractor.

Variable P : Platform.

(** The loop over the cells of a row: the first cell whose trimmed text
    matches the pattern. *)
Fixpoint findStatus (tds : list Dom.node) : Completion (option string) :=
  match tds with
  | [] => Return None
  | td :: r =>
      t <~ text P [td] ;;
      let txt := JSString.trim t in
      if statusPattern txt then Return (Some txt) else findStatus r
  end.

(** The callback of the row loop. *)
Definition rowCallback (baseUrl : string) (results : list SunbizResult)
           (tr : Dom.node) : Completion (list SunbizResult) :=
  let tds := Dom.find "td" tr in
  match tds with
  | [] => Return results
  | td0 :: _ =>
      let nameAnchor := Dom.first (Dom.find "a" td0) in
      t <~ text P nameAnchor ;;
      let name := JSString.trim t in
      if negb (JSString.truthy name) then Return results
      else
        let href := Dom.attr "href" nameAnchor in
        documentNumber <~
          match nth_error tds 1 with
          | Some td1 =>
              t1 <~ text P [td1] ;; Return (orUndefined (JSString.trim t1))
          | None => Return None
          end ;;
        status <~ findStatus tds ;;
        url <~
          match href with
          | Some h =>
              if JSString.truthy h then
                match new_URL P h baseUrl with
                | Some u => Return (Some u)
                | None => Throw InvalidURL
                end
              else Return None
          | None => Return None
          end ;;
        Return (results ++ [mkResult name status documentNumber url])%list
  end.

(** The callback of the fallback loop. *)
Definition anchorCallback (baseUrl : string) (results : list SunbizResult)
           (a : Dom.node) : Completion (list SunbizResult) :=
  t <~ text P [a] ;;
  let name := JSString.trim t in
  let href := Dom.attr "href" [a] in
  match href with
  | Some h =>
      if JSString.truthy name && JSString.truthy h then
        match new_URL P h baseUrl with
        | Some u => Return (results ++ [mkResult name None None (Some u)])%list
        | None => Throw InvalidURL
        end
      else Return results
  | None => Return results
  end.

Definition parseSunbiz (html baseUrl : string) : Completion (list SunbizResult) :=
  let doc := cheerio_load P html in
  match each (rowCallback baseUrl) [] (Dom.select_table_tbody_tr doc) with
  | Throw e => Throw e
  | Return results =>
      if (List.length results =? 0)%nat
      then each (anchorCallback baseUrl) results (Dom.select_detail_anchors doc)
      else Return results
  end.

End Extractor.

(** Some link of the document has a non-empty [href] that the URL
    constructor rejects against [baseUrl]. *)
Definition unresolvableLink (new_URL : string -> string -> option string)
           (doc : Dom.document) (baseUrl : string) : Prop :=
  exists a h,
    In a (Dom.nodes doc) /\ Dom.isElement "a" a = true /\
    Dom.getAttribute "href" a = Some h /\ h <> "" /\ new_URL h baseUrl = None.


(** ** The cache: a [Map] in insertion order *)

Record CacheEntry : Type := mkEntry {
  value : list SunbizResult;
  expiresAt : Z
}.

Module JSMap.

(** The entries of a [Map<string, CacheEntry>], oldest insertion first. *)
Definition t : Type := list (string * CacheEntry).

Definition empty : t := [].

Definition size (m : t) : Z := Z.of_nat (List.length m).

Definition keys (m : t) : list string := map fst m.

Fixpoint get (k : string) (m : t) : option CacheEntry :=
  match m with
  | [] => None
  | (k', e) :: r => if String.eqb k' k then Some e else get k r
  end.

Definition delete (k : string) (m : t) : t :=
  filter (fun p => negb (String.eqb (fst p) k)) m.

(** [set] keeps the position of a key that is present and appends a new
    key at the end. *)
Fixpoint set (k : string) (e : CacheEntry) (m : t) : t :=
  match m with
  | [] => [(k, e)]
  | (k', e') :: r =>
      if String.eqb k' k then (k, e) :: r else (k', e') :: set k e r
  end.

(** [m.keys().next().value] *)
Definition firstKey (m : t) : option string :=
  match m with
  | [] => None
  | (k, _) :: _ => Some k
  end.

(** A [Map] holds a key once. *)
Definition wf (m : t) : Prop := NoDup (keys m).

End JSMap.

Definition CACHE_TTL_MS : Z := 5 * 60 * 1000.
Definition CACHE_MAX_ENTRIES : Z := 200.

(** [getCache(key)], reading the clock as [now]; the second component is
    [CACHE] afterwards. *)
Definition getCache (key : string) (now : Z) (CACHE : JSMap.t)
  : option (list SunbizResult) * JSMap.t :=
  match JSMap.get key CACHE with
  | None => (None, CACHE)
  | Some hit =>
      if now >? expiresAt hit then (None, JSMap.delete key CACHE)
      else (Some (value hit), CACHE)
  end.

(** [setCache(key, value)], reading the clock as [now]. *)
Definition setCache (key : string) (v : list SunbizResult) (now : Z)
           (CACHE : JSMap.t) : JSMap.t :=
  let CACHE1 :=
    if JSMap.size CACHE >=? CACHE_MAX_ENTRIES then
      match JSMap.firstKey CACHE with
      | Some oldestKey =>
          if JSString.truthy oldestKey then JSMap.delete oldestKey CACHE
          else CACHE
      | None => CACHE
      end
    else CACHE in
  JSMap.set key (mkEntry v (now + CACHE_TTL_MS)) CACHE1.

(** A run of [setCache] calls: the key, the value and the clock reading of
    each call, oldest call first. *)
Definition insertion : Type := (string * list SunbizResult * Z)%type.

Definition insKey (i : insertion) : string := fst (fst i).

Definition insertAll (ins : list insertion) (c : JSMap.t) : JSMap.t :=
  fold_left (fun c i => setCache (fst (fst i)) (snd (fst i)) (snd i) c) ins c.

(** The last [n] elements of a list. *)
Definition lastn {A : Type} (n : nat) (l : list A) : list A :=
  skipn (List.length l - n) l.

Definition normalizeQuery (P : Platform) (q : string) : string :=
  toLowerCase P (JSString.trim q).

(** ** The request handler *)

Inductive Body : Type :=
| ResultsBody (results : list SunbizResult) (fromCache : option bool)
| ErrorBody (error : string) (status : option Z) (details : option string).

(** [NextResponse.json(body, { status })]; the status defaults to 200. *)
Record Response : Type := json {
  body : Body;
  http_status : Z
}.

(** The search parameters of the request URL. *)
Record Request : Type := mkRequest {
  param_q : option string;
  param_limit : option string
}.

(** What [fetch(url)] does: it rejects, or resolves to a response whose
    [text()] resolves or rejects. *)
Inductive FetchOutcome : Type :=
| Rejected (e : Exn)
| Responded (ok : bool) (status : Z) (text : Completion string).

(** The surroundings of one request: the two readings of [Date.now()]
    (inside [getCache] and inside [setCache]) and the network. *)
Record Env : Type := mkEnv {
  now_get : Z;
  now_set : Z;
  fetch : string -> FetchOutcome
}.

Inductive Event : Type :=
| EvGetCache (key : string)
| EvSetCache (key : string)
| EvFetch (url : string).

Record World : Type := mkWorld {
  CACHE : JSMap.t;
  trace : list Event
}.

(** State and exceptions. *)
Definition M (A : Type) : Type := World -> Completion A * World.

Definition ret {A : Type} (a : A) : M A := fun w => (Return a, w).

Definition bind {A B : Type} (c : M A) (k : A -> M B) : M B :=
  fun w =>
    match c w with
    | (Return a, w') => k a w'
    | (Throw e, w') => (Throw e, w')
    end.

Notation "x <- c ;; k" := (bind c (fun x => k))
  (at level 61, c at next level, right associativity).

Definition lift {A : Type} (c : Completion A) : M A := fun w => (c, w).

Definition emit (ev : Event) (w : World) : World :=
  mkWorld (CACHE w) (trace w ++ [ev]).

Definition getCacheM (key : string) (now : Z) : M (option (list SunbizResult)) :=
  fun w =>
    let (r, c) := getCache key now (CACHE w) in
    (Return r, mkWorld c (trace w ++ [EvGetCache key])).

Definition setCacheM (key : string) (v : list SunbizResult) (now : Z) : M unit :=
  fun w =>
    (Return tt, mkWorld (setCache key v now (CACHE w)) (trace w ++ [EvSetCache key])).

Definition fetchM (env : Env) (url : string) : M (bool * Z * Completion string) :=
  fun w =>
    match fetch env url with
    | Rejected e => (Throw e, emit (EvFetch url) w)
    | Responded ok st txt => (Return (ok, st, txt), emit (EvFetch url) w)
    end.

(** [searchParams.get("q") || ""] *)
Definition queryOf (req : Request) : string :=
  match param_q req with
  | Some s => if JSString.truthy s then s else ""
  | None => ""
  end.

(** [Number(searchParams.get("limit") || 7)] *)
Definition requestedLimit (raw : option string) : JSNumber.t :=
  match raw with
  | Some s => if JSString.truthy s then JSNumber.ofString s else JSNumber.ofZ 7
  | None => JSNumber.ofZ 7
  end.

Definition effectiveLimit (raw : option string) : JSNumber.t :=
  JSNumber.Math_max (JSNumber.ofZ 1)
    (JSNumber.Math_min (JSNumber.ofZ 10) (requestedLimit raw)).

(** [err?.message || String(err)] *)
Definition errorDetails (e : Exn) : string :=
  if JSString.truthy (exn_message e) then exn_message e else exn_name e.

(** [const baseUrl] of the handler: the registry's address. *)
Definition baseUrl : string := "https://search.sunbiz.org".

Definition searchUrl (base q : string) : string :=
  base ++ "/Inquiry/CorporationSearch/SearchResults?inquiryType=EntityName&searchTerm="
          ++ JSString.encodeURIComponent q.

Definition cacheKeyOf (cleaned : string) (limit : JSNumber.t) : string :=
  cleaned ++ ":" ++ JSNumber.toString limit.

Section Handler.

Variable P : Platform.

(** The body of the [try] block. *)
Definition handle (req : Request) (env : Env) : M Response :=
  let q := queryOf req in
  let limit := effectiveLimit (param_limit req) in
  let cleaned := normalizeQuery P q in
  if (String.length cleaned <? 2)%nat then
    ret (json (ErrorBody "Query must be at least 2 characters." None None) 400)
  else
    let cacheKey := cacheKeyOf cleaned limit in
    cached <- getCacheM cacheKey (now_get env) ;;
    match cached with
    | Some c => ret (json (ResultsBody (JSNumber.slice0 c limit) (Some true)) 200)
    | None =>
        let url := searchUrl baseUrl q in
        res <- fetchM env url ;;
        let '(ok, st, txt) := res in
        if negb ok then
          ret (json (ErrorBody "Failed to fetch Sunbiz results." (Some st) None) 502)
        else
          html <- lift txt ;;
          parsed <- lift (parseSunbiz P html baseUrl) ;;
          let results := JSNumber.slice0 parsed limit in
          _ <- setCacheM cacheKey results (now_set env) ;;
          ret (json (ResultsBody results None) 200)
    end.

(** [GET(req)]: the [catch] turns every exception into a 500 response. *)
Definition GET (req : Request) (env : Env) (w : World) : Response * World :=
  match handle req env w with
  | (Return r, w') => (r, w')
  | (Throw err, w') =>
      (json (ErrorBody "Unexpected error while searching Sunbiz." None
                       (Some (errorDetails err))) 500, w')
  end.

End Handler.

(** The cache key and the limit of a request, and the response of the
    [catch] block. *)
Definition limitOf (req : Request) : JSNumber.t := effectiveLimit (param_limit req).

Definition keyOf (P : Platform) (req : Request) : string :=
  cacheKeyOf (normalizeQuery P (queryOf req)) (limitOf req).

(** A call of [setCache] by the handler: the request whose key it stores
    under, the records and the reading of the clock. *)
Definition handlerCall : Type := (Request * list SunbizResult * Z)%type.

Definition handlerInsertions (P : Platform) (calls : list handlerCall)
  : list insertion :=
  map (fun c => (keyOf P (fst (fst c)), snd (fst c), snd c)) calls.

Definition unexpected (e : Exn) : Response :=
  json (ErrorBody "Unexpected error while searching Sunbiz." None
                  (Some (errorDetails e))) 500.

(** A cache miss followed by a successful fetch on which the extractor
    returns [parsed]: the key is absent or expired at the first reading of
    the clock, the registry answers the search with a success status and a
    body, and [parseSunbiz] returns. *)
Definition missThenSuccess (P : Platform)
           (req : Request) (env : Env) (w : World)
           (parsed : list SunbizResult) : Prop :=
  (2 <= String.length (normalizeQuery P (queryOf req)))%nat /\
  fst (getCache (keyOf P req) (now_get env) (CACHE w)) = None /\
  exists st html,
    fetch env (searchUrl baseUrl (queryOf req))
    = Responded true st (Return html) /\
    parseSunbiz P html baseUrl
    = Return parsed.

(** The shape the cache has in every state the handler reaches: each key
    once, at most [CACHE_MAX_ENTRIES] entries, no empty key. *)
Definition cacheOk (c : JSMap.t) : Prop :=
  JSMap.wf c /\ JSMap.size c <= CACHE_MAX_ENTRIES /\
  forall k, In k (JSMap.keys c) -> k <> "".

(** The [fromCache] field of a response body, when it has one. *)
Definition fromCacheOf (r : Response) : option bool :=
  match body r with
  | ResultsBody _ fc => fc
  | ErrorBody _ _ _ => None
  end.

(** The outbound fetches recorded in a trace. *)
Definition fetches (tr : list Event) : list string :=
  flat_map (fun ev => match ev with EvFetch u => [u] | _ => [] end) tr.

(** ** Sample pages

    Markup strings with the documents cheerio builds for them, and the URL
    constructor on the references they use.  The two functions are tables:
    they agree with the platform on the entries listed and are used nowhere
    else. *)

Module Sample.
Import Dom.

(** The document of a page whose [body] holds [content]. *)
Definition page (content : list node) : document :=
  [Element "html" [] [Element "head" [] []; Element "body" [] content]].

Definition table (rows : list node) : node :=
  Element "table" [] [Element "tbody" [] rows].

Definition cell (content : list node) : node := Element "td" [] content.

Definition link (href label : string) : node :=
  Element "a" [("href", href)] [Text label].

Definition tesla_href : string :=
  "/Inquiry/CorporationSearch/SearchResultDetail?inquirytype=...".

Definition tesla_url : string :=
  "https://search.sunbiz.org/Inquiry/CorporationSearch/SearchResultDetail?inquirytype=...".

Definition tesla_html : string :=
  "<table><tbody><tr><td><a href='/Inquiry/CorporationSearch/SearchResultDetail?inquirytype=...'>TESLA LLC</a></td><td>P12000012345</td><td>ACTIVE</td></tr></tbody></table>".

Definition tesla_row : node :=
  Element "tr" []
    [cell [link tesla_href "TESLA LLC"]; cell [Text "P12000012345"];
     cell [Text "ACTIVE"]].

Definition tesla_document : document := page [table [tesla_row]].

Definition tesla_record : SunbizResult :=
  mkResult "TESLA LLC" (Some "ACTIVE") (Some "P12000012345") (Some tesla_url).

(** Two result rows. *)
Definition motors_href : string :=
  "/Inquiry/CorporationSearch/SearchResultDetail?inquirytype=EntityName&aggregateId=2".

Definition motors_url : string :=
  "https://search.sunbiz.org/Inquiry/CorporationSearch/SearchResultDetail?inquirytype=EntityName&aggregateId=2".

Definition two_rows_html : string :=
  "<table><tbody><tr><td><a href='/Inquiry/CorporationSearch/SearchResultDetail?inquirytype=...'>TESLA LLC</a></td><td>P12000012345</td><td>ACTIVE</td></tr><tr><td><a href='/Inquiry/CorporationSearch/SearchResultDetail?inquirytype=EntityName&amp;aggregateId=2'>TESLA MOTORS INC</a></td><td>F09000001234</td><td>INACT</td></tr></tbody></table>".

Definition motors_row : node :=
  Element "tr" []
    [cell [link motors_href "TESLA MOTORS INC"]; cell [Text "F09000001234"];
     cell [Text "INACT"]].

Definition two_rows_document : document := page [table [tesla_row; motors_row]].

Definition motors_record : SunbizResult :=
  mkResult "TESLA MOTORS INC" (Some "INACT") (Some "F09000001234") (Some motors_url).

(** A result row whose link has a scheme and no host: the URL parser
    reports a missing host and the constructor throws. *)
Definition broken_html : string :=
  "<table><tbody><tr><td><a href='http://'>ACME LLC</a></td><td>L01000000001</td></tr></tbody></table>".

Definition broken_document : document :=
  page [table [Element "tr" []
                 [cell [link "http://" "ACME LLC"]; cell [Text "L01000000001"]]]].

(** A page without result rows or detail links. *)
Definition empty_html : string := "<p>No records found.</p>".

Definition empty_document : document :=
  page [Element "p" [] [Text "No records found."]].

(** Rows the extractor skips: one without cells, one whose first cell has
    no link, one whose link text is blank. *)
Definition skipped_html : string :=
  "<table><tbody><tr></tr><tr><td>plain</td></tr><tr><td><a href='/x'>  </a></td></tr></tbody></table>".

Definition skipped_document : document :=
  page [table [Element "tr" [] [];
               Element "tr" [] [cell [Text "plain"]];
               Element "tr" [] [cell [link "/x" "  "]]]].

Definition pages : list (string * document) :=
  [(tesla_html, tesla_document); (two_rows_html, two_rows_document);
   (broken_html, broken_document); (empty_html, empty_document);
   (skipped_html, skipped_document)].

Fixpoint lookup {A : Type} (k : string) (l : list (string * A)) : option A :=
  match l with
  | [] => None
  | (k', v) :: r => if String.eqb k' k then Some v else lookup k r
  end.

Definition cheerio_load (html : string) : document :=
  match lookup html pages with
  | Some d => d
  | None => page []
  end.

Definition resolutions : list (string * option string) :=
  [(tesla_href, Some tesla_url); (motors_href, Some motors_url);
   ("http://", None)].

Definition new_URL (href base : string) : option string :=
  if String.eqb base baseUrl then
    match lookup href resolutions with
    | Some r => r
    | None => None
    end
  else None.

(** The sample platform: lower-casing unit by unit, and a call stack that
    lets [.text()] descend 1000 elements. *)
Definition platform : Platform :=
  mkPlatform cheerio_load new_URL JSString.toLowerCaseLatin1 1000.

Definition parse : string -> string -> Completion (list SunbizResult) :=
  parseSunbiz platform.

(** The network: the registry answers every search with [reply]. *)
Definition network (reply : FetchOutcome) : string -> FetchOutcome :=
  fun _ => reply.

Definition emptyWorld : World := mkWorld JSMap.empty [].

Definition GET : Request -> Env -> World -> Response * World :=
  GET platform.

(** A request served at clock readings 1000 and 1001 by a registry that
    answers with [reply]. *)
Definition env (reply : FetchOutcome) : Env := mkEnv 1000 1001 (network reply).

Definition ok (html : string) : FetchOutcome := Responded true 200 (Return html).

Definition unavailable : FetchOutcome := Responded false 503 (Return "").

(** Distinct keys for cache runs: the key ["", i] one character long. *)
Definition key (i : nat) : string := String (ascii_of_nat i) "".

Definition insertKeys (ks : list string) : list insertion :=
  map (fun k => (k, [], 0)) ks.

(** 201 requests with distinct queries, each storing no record at clock
    reading 0. *)
Definition request (i : nat) : Request :=
  mkRequest (Some ("co" ++ JSNumber.toString (JSNumber.ofZ (Z.of_nat i)))) None.

Definition manyRequests : list Request := map request (seq 1 201).

Definition manyCalls : list handlerCall :=
  map (fun r => (r, [], 0)) manyRequests.

(** The empty key followed by 200 distinct non-empty keys. *)
Definition emptyKeyFirst : list string := "" :: map key (seq 1 200).

End Sample.

(** ** The worlds the handler reaches *)

(** The worlds reached from the empty cache by any number of requests,
    whatever the clock and the network do. *)
Inductive reachable (P : Platform) : World -> Prop :=
| reach_start : reachable P (mkWorld JSMap.empty [])
| reach_request (req : Request) (env : Env) (w : World) :
    reachable P w ->
    reachable P (snd (GET P req env w)).

(** The records of a response; none for an error body. *)
Definition resultsOf (r : Response) : list SunbizResult :=
  match body r with
  | ResultsBody rs _ => rs
  | ErrorBody _ _ _ => []
  end.

(** ** The search box (the component [SunbizSearch]) *)

Module SearchBox.

(** [getStatusChipClass(statusText)] *)
Definition getStatusChipClass (P : Platform) (statusText : string) : string :=
  let s := toLowerCase P statusText in
  if JSString.includes s "active" then "bg-accent text-accent-foreground"
  else if JSString.includes s "inactive" || JSString.includes s "revoked"
          || JSString.includes s "involuntary"
  then "bg-destructive text-primary-foreground"
  else "bg-muted text-muted-foreground".

(** [debounced.trim().length >= 2] *)
Definition shouldSearch (debounced : string) : bool :=
  (2 <=? String.length (JSString.trim debounced))%nat.

(** The address the component requests, [null] while the input is too
    short. *)
Definition requestKey (debounced : string) (limit : JSNumber.t) : option string :=
  if shouldSearch debounced then
    Some ("/api/search?q=" ++ JSString.encodeURIComponent debounced
                           ++ "&limit=" ++ JSNumber.toString limit)
  else None.

(** The state the key handler reads and writes. *)
Record State : Type := mkState {
  query : string;
  open : bool;
  highlighted : Z
}.

(** What a handler does besides updating the state. *)
Inductive Effect : Type :=
| PreventDefault
| OnSelect (item : SunbizResult).

(** [results[i]] for a number [i] that is an integer. *)
Definition item_at (results : list SunbizResult) (i : Z) : option SunbizResult :=
  if i <? 0 then None else nth_error results (Z.to_nat i).

(** [handleSelect(item)] *)
Definition handleSelect (item : SunbizResult) (st : State) : State * list Effect :=
  (mkState (name item) false (highlighted st), [OnSelect item]).

(** [onKeyDown(e)], with [e.key] as [key]; the remainder [%] truncates
    towards zero. *)
Definition onKeyDown (key : string) (results : list SunbizResult) (st : State)
  : State * list Effect :=
  let len := Z.of_nat (List.length results) in
  if negb (open st) || (len =? 0) then (st, [])
  else if String.eqb key "ArrowDown" then
    (mkState (query st) (open st) (Z.rem (highlighted st + 1) len), [PreventDefault])
  else if String.eqb key "ArrowUp" then
    (mkState (query st) (open st) (Z.rem (highlighted st - 1 + len) len),
     [PreventDefault])
  else if String.eqb key "Enter" then
    match item_at results (highlighted st) with
    | Some item =>
        let (st', effects) := handleSelect item st in
        (st', PreventDefault :: effects)
    | None => (st, [PreventDefault])
    end
  else if String.eqb key "Escape" then
    (mkState (query st) false (highlighted st), [])
  else (st, []).

(** The index points at a result. *)
Definition inRange (results : list SunbizResult) (st : State) : Prop :=
  0 <= highlighted st < Z.of_nat (List.length results).

End SearchBox.

(** ** What a record may hold *)

(** The name is not empty and has no white space around it. *)
Definition wellNamed (r : SunbizResult) : Prop :=
  name r <> "" /\ JSString.trim (name r) = name r.

(** A record of the fallback loop: a name and a url, nothing else. *)
Definition linkOnly (r : SunbizResult) : Prop :=
  status r = None /\ documentNumber r = None /\ exists u, url r = Some u.

(** [u] is what the URL constructor made of the [href] of a link of the
    document. *)
Definition resolvedLink (new_URL : string -> string -> option string)
           (doc : Dom.document) (baseUrl u : string) : Prop :=
  exists a h,
    In a (Dom.nodes doc) /\ Dom.isElement "a" a = true /\
    Dom.getAttribute "href" a = Some h /\ new_URL h baseUrl = Some u.

(** Every url of the record comes from a link of the document. *)
Definition urlFromDocument (new_URL : string -> string -> option string)
           (doc : Dom.document) (baseUrl : string) (r : SunbizResult) : Prop :=
  forall u, url r = Some u -> resolvedLink new_URL doc baseUrl u.

(** A page without a table: two detail links, one of them without text. *)
Module LinksOnly.

Definition html : string :=
  "<p><a href='/Inquiry/CorporationSearch/SearchResultDetail?inquirytype=...'> TESLA LLC </a><a href='/Inquiry/CorporationSearch/SearchResultDetail?inquirytype=EntityName&amp;aggregateId=2'></a><a href='/about'>About</a></p>".

Definition document : Dom.document :=
  Sample.page
    [Dom.Element "p" []
       [Sample.link Sample.tesla_href " TESLA LLC ";
        Dom.Element "a" [("href", Sample.motors_href)] [];
        Sample.link "/about" "About"]].

Definition cheerio_load (markup : string) : Dom.document :=
  if String.eqb markup html then document else Sample.cheerio_load markup.

Definition platform : Platform :=
  mkPlatform cheerio_load Sample.new_URL JSString.toLowerCaseLatin1 1000.

Definition record : SunbizResult :=
  mkResult "TESLA LLC" None None (Some Sample.tesla_url).

End LinksOnly.

(** The platform [P] with one more page: [cheerio.load] reads [markup] as
    [doc]. *)
Definition withPage (markup : string) (doc : Dom.document) (P : Platform)
  : Platform :=
  mkPlatform
    (fun m => if String.eqb m markup then doc else cheerio_load P m)
    (new_URL P) (toLowerCase P) (stackDepth P).

(** The result row of the example with one more cell, "Status", before the
    cell "ACTIVE". *)
Module Labelled.

Definition html : string :=
  "<table><tbody><tr><td><a href='/Inquiry/CorporationSearch/SearchResultDetail?inquirytype=...'>TESLA LLC</a></td><td>P12000012345</td><td>Status</td><td>ACTIVE</td></tr></tbody></table>".

Definition row : Dom.node :=
  Dom.Element "tr" []
    [Sample.cell [Sample.link Sample.tesla_href "TESLA LLC"];
     Sample.cell [Dom.Text "P12000012345"];
     Sample.cell [Dom.Text "Status"];
     Sample.cell [Dom.Text "ACTIVE"]].

Definition document : Dom.document := Sample.page [Sample.table [row]].

Definition platform : Platform := withPage html document Sample.platform.

Definition record : SunbizResult :=
  mkResult "TESLA LLC" (Some "Status") (Some "P12000012345")
           (Some Sample.tesla_url).

End Labelled.

(** The result row of the example, and below the table a link the URL
    constructor rejects. *)
Module Stray.

Definition html : string :=
  "<table><tbody><tr><td><a href='/Inquiry/CorporationSearch/SearchResultDetail?inquirytype=...'>TESLA LLC</a></td><td>P12000012345</td><td>ACTIVE</td></tr></tbody></table><p><a href='http://'>Help</a></p>".

Definition document : Dom.document :=
  Sample.page [Sample.table [Sample.tesla_row];
               Dom.Element "p" [] [Sample.link "http://" "Help"]].

Definition platform : Platform := withPage html document Sample.platform.

End Stray.

(** The result row of the example with its document number wrapped in
    1001 nested [span] elements, one more than the stack of the sample
    platform lets [.text()] descend. *)
Module Deep.

Fixpoint nest (n : nat) (x : Dom.node) : Dom.node :=
  match n with
  | O => x
  | S k => Dom.Element "span" [] [nest k x]
  end.

Fixpoint times (n : nat) (s : string) : string :=
  match n with
  | O => ""
  | S k => s ++ times k s
  end.

Definition html : string :=
  "<table><tbody><tr><td><a href='/Inquiry/CorporationSearch/SearchResultDetail?inquirytype=...'>TESLA LLC</a></td><td>"
    ++ times 1001 "<span>" ++ "P12000012345" ++ times 1001 "</span>"
    ++ "</td><td>ACTIVE</td></tr></tbody></table>".

Definition row : Dom.node :=
  Dom.Element "tr" []
    [Sample.cell [Sample.link Sample.tesla_href "TESLA LLC"];
     Sample.cell [nest 1001 (Dom.Text "P12000012345")];
     Sample.cell [Dom.Text "ACTIVE"]].

Definition document : Dom.document := Sample.page [Sample.table [row]].

Definition platform : Platform := withPage html document Sample.platform.

End Deep.

(** The four ways a request ends: rejected as too short, served from the
    cache, failed after a miss (nothing is stored), or fetched, extracted
    and stored. *)
Inductive Outcome (P : Platform)
          (req : Request) (env : Env) (w : World) : Response * World -> Prop :=
| TooShort :
    (String.length (normalizeQuery P (queryOf req)) < 2)%nat ->
    Outcome P req env w
      (json (ErrorBody "Query must be at least 2 characters." None None) 400, w)
| Hit (hit : CacheEntry) :
    (2 <= String.length (normalizeQuery P (queryOf req)))%nat ->
    JSMap.get (keyOf P req) (CACHE w) = Some hit ->
    now_get env <= expiresAt hit ->
    Outcome P req env w
      (json (ResultsBody (JSNumber.slice0 (value hit) (limitOf req)) (Some true)) 200,
       mkWorld (CACHE w) (trace w ++ [EvGetCache (keyOf P req)]))
| Failed (C1 : JSMap.t) (error : string) (st : option Z) (details : option string)
         (code : Z) :
    (2 <= String.length (normalizeQuery P (queryOf req)))%nat ->
    getCache (keyOf P req) (now_get env) (CACHE w) = (None, C1) ->
    code = 500 \/ code = 502 ->
    Outcome P req env w
      (json (ErrorBody error st details) code,
       mkWorld C1 ((trace w ++ [EvGetCache (keyOf P req)])
                     ++ [EvFetch (searchUrl baseUrl (queryOf req))]))
| Stored (C1 : JSMap.t) (st : Z) (html : string) (parsed : list SunbizResult) :
    (2 <= String.length (normalizeQuery P (queryOf req)))%nat ->
    getCache (keyOf P req) (now_get env) (CACHE w) = (None, C1) ->
    fetch env (searchUrl baseUrl (queryOf req)) = Responded true st (Return html) ->
    parseSunbiz P html baseUrl = Return parsed ->
    Outcome P req env w
      (json (ResultsBody (JSNumber.slice0 parsed (limitOf req)) None) 200,
       mkWorld (setCache (keyOf P req) (JSNumber.slice0 parsed (limitOf req))
                         (now_set env) C1)
               (((trace w ++ [EvGetCache (keyOf P req)])
                   ++ [EvFetch (searchUrl baseUrl (queryOf req))])
                  ++ [EvSetCache (keyOf P req)])).

(** The characters [encodeURIComponent] lets through or produces. *)
Definition urlSafe (c : ascii) : bool :=
  JSString.isUnreserved c || Ascii.eqb c "%".

(** The fixed part of the address the handler fetches. *)
Definition searchPrefix : string :=
  "https://search.sunbiz.org/Inquiry/CorporationSearch/SearchResults?inquiryType=EntityName&searchTerm=".

(** The optional fields of a record are absent or hold a non-empty trimmed
    text; a status also matches the pattern it was picked by. *)
Definition fieldsOk (r : SunbizResult) : Prop :=
  (forall d, documentNumber r = Some d -> d <> "" /\ JSString.trim d = d) /\
  (forall s, status r = Some s ->
             s <> "" /\ JSString.trim s = s /\ statusPattern s = true).

(** The trimmed text of a cell does not look like a status. *)
Definition notStatus (td : Dom.node) : Prop :=
  statusPattern (JSString.trim (Dom.text [td])) = false.

(** [txt] contains [alt], letter case aside. *)
Definition containsAlt (alt txt : string) : bool :=
  JSString.containsCI (list_ascii_of_string alt) (list_ascii_of_string txt).

(** ** Worked examples *)

Example Number_examples :
  map JSNumber.ofString ["0"; "15"; "abc"; "2.5"; " 7 "; "1e1"; "0x1F"; "-3"; "."; "1.50"]
  = [JSNumber.Finite 0 0; JSNumber.Finite 15 0; JSNumber.NaN; JSNumber.Finite 25 (-1);
     JSNumber.Finite 7 0; JSNumber.Finite 10 0; JSNumber.Finite 31 0; JSNumber.Finite (-3) 0;
     JSNumber.NaN; JSNumber.Finite 15 (-1)].
Proof. vm_compute. reflexivity. Qed.

Example toString_examples :
  map JSNumber.toString
    [JSNumber.Finite 7 0; JSNumber.Finite 10 0; JSNumber.NaN; JSNumber.Finite 25 (-1);
     JSNumber.Finite (-3) 0; JSNumber.Finite 5 (-3); JSNumber.Finite 1 (-7);
     JSNumber.Finite (10^21) 0; JSNumber.Finite 123 (-8)]
  = ["7"; "10"; "NaN"; "2.5"; "-3"; "0.005"; "1e-7"; "1e+21"; "0.00000123"]%string.
Proof. vm_compute. reflexivity. Qed.

Example parse_tesla :
  Sample.parse Sample.tesla_html baseUrl = Return [Sample.tesla_record].
Proof. vm_compute. reflexivity. Qed.

Example parse_two_rows :
  Sample.parse Sample.two_rows_html baseUrl
  = Return [Sample.tesla_record; Sample.motors_record].
Proof. vm_compute. reflexivity. Qed.

Example parse_empty :
  Sample.parse Sample.empty_html baseUrl = Return [].
Proof. vm_compute. reflexivity. Qed.

Example parse_skipped :
  Sample.parse Sample.skipped_html baseUrl = Return [].
Proof. vm_compute. reflexivity. Qed.

Example normalizeQuery_examples :
  map (normalizeQuery Sample.platform) ["  Tesla "; "a"; " A  "; "TESLA LLC"]
  = ["tesla"; "a"; "a"; "tesla llc"].
Proof. vm_compute. reflexivity. Qed.

Example searchUrl_example :
  searchUrl baseUrl "Tesla & Co"
  = "https://search.sunbiz.org/Inquiry/CorporationSearch/SearchResults?inquiryType=EntityName&searchTerm=Tesla%20%26%20Co".
Proof. vm_compute. reflexivity. Qed.

(** ** Facts about the map *)

Module JSMapFacts.
Import JSMap.

Lemma get_set_same k e m : get k (set k e m) = Some e.
Proof.
  induction m as [|[k' e'] r IH]; simpl.
  - now rewrite String.eqb_refl.
  - destruct (String.eqb k' k) eqn:E; simpl.
    + now rewrite String.eqb_refl.
    + now rewrite E.
Qed.

Lemma get_set_other k k' e m : k <> k' -> get k' (set k e m) = get k' m.
Proof.
  intros Hne. induction m as [|[k0 e0] r IH]; simpl.
  - destruct (String.eqb k k') eqn:E; [apply String.eqb_eq in E; contradiction | reflexivity].
  - destruct (String.eqb k0 k) eqn:E; simpl.
    + apply String.eqb_eq in E. subst k0.
      destruct (String.eqb k k') eqn:E'; [apply String.eqb_eq in E'; contradiction | reflexivity].
    + now rewrite IH.
Qed.

Lemma get_delete_same k m : get k (delete k m) = None.
Proof.
  induction m as [|[k' e'] r IH]; simpl; [reflexivity|].
  destruct (String.eqb k' k) eqn:E; simpl; [assumption|].
  now rewrite E.
Qed.

Lemma get_delete_other k k' m : k <> k' -> get k' (delete k m) = get k' m.
Proof.
  intros Hne. induction m as [|[k0 e0] r IH]; simpl; [reflexivity|].
  destruct (String.eqb k0 k) eqn:E; simpl.
  - apply String.eqb_eq in E. subst k0.
    destruct (String.eqb k k') eqn:E'; [apply String.eqb_eq in E'; contradiction | assumption].
  - now rewrite IH.
Qed.

Lemma get_In_keys k m : get k m <> None <-> In k (keys m).
Proof.
  induction m as [|[k' e'] r IH]; simpl.
  - split; [congruence | tauto].
  - destruct (String.eqb k' k) eqn:E.
    + apply String.eqb_eq in E. split; [intros _; left; exact E | intros _; discriminate].
    + apply String.eqb_neq in E. rewrite IH. tauto.
Qed.

Lemma get_None_keys k m : get k m = None <-> ~ In k (keys m).
Proof.
  rewrite <- get_In_keys. destruct (get k m) as [c|]; split.
  - discriminate.
  - intros H. exfalso. apply H. discriminate.
  - intros _ H. now apply H.
  - reflexivity.
Qed.

End JSMapFacts.

(** ** Facts about the cache functions *)

Lemma setCache_get_same key v now c :
  JSMap.get key (setCache key v now c) = Some (mkEntry v (now + CACHE_TTL_MS)).
Proof. unfold setCache. apply JSMapFacts.get_set_same. Qed.

Lemma getCache_hit key now c hit :
  JSMap.get key c = Some hit -> now <= expiresAt hit ->
  getCache key now c = (Some (value hit), c).
Proof.
  intros Hg Hle. unfold getCache. rewrite Hg.
  destruct (now >? expiresAt hit) eqn:E; [|reflexivity].
  apply Z.gtb_lt in E. lia.
Qed.

Lemma getCache_expired key now c hit :
  JSMap.get key c = Some hit -> expiresAt hit < now ->
  getCache key now c = (None, JSMap.delete key c).
Proof.
  intros Hg Hlt. unfold getCache. rewrite Hg.
  destruct (now >? expiresAt hit) eqn:E; [reflexivity|].
  rewrite Z.gtb_ltb in E. apply Z.ltb_ge in E. lia.
Qed.

Lemma getCache_absent key now c :
  JSMap.get key c = None -> getCache key now c = (None, c).
Proof. intros Hg. unfold getCache. now rewrite Hg. Qed.

Lemma getCache_Some_inv key now c v c' :
  getCache key now c = (Some v, c') ->
  c' = c /\ exists hit, JSMap.get key c = Some hit /\ value hit = v /\ now <= expiresAt hit.
Proof.
  unfold getCache. destruct (JSMap.get key c) as [hit|]; [|discriminate].
  destruct (now >? expiresAt hit) eqn:E; [discriminate|].
  intros H. inversion H; subst. split; [reflexivity|].
  exists hit. repeat split; try reflexivity.
  rewrite Z.gtb_ltb in E. apply Z.ltb_ge in E. exact E.
Qed.

Lemma slice0_nil {A : Type} (limit : JSNumber.t) : JSNumber.slice0 (@nil A) limit = [].
Proof.
  destruct limit as [|[|]|m e]; simpl; try reflexivity.
  apply firstn_nil.
Qed.

(** ** The handler, branch by branch *)

Section HandlerFacts.

Variable P : Platform.

Lemma GET_short req env w :
  (String.length (normalizeQuery P (queryOf req)) < 2)%nat ->
  GET P req env w
  = (json (ErrorBody "Query must be at least 2 characters." None None) 400, w).
Proof.
  intros H. unfold GET, handle.
  apply Nat.ltb_lt in H. rewrite H. reflexivity.
Qed.

Lemma GET_hit req env w c C1 :
  (2 <= String.length (normalizeQuery P (queryOf req)))%nat ->
  getCache (keyOf P req) (now_get env) (CACHE w) = (Some c, C1) ->
  GET P req env w
  = (json (ResultsBody (JSNumber.slice0 c (limitOf req)) (Some true)) 200,
     mkWorld C1 (trace w ++ [EvGetCache (keyOf P req)])).
Proof.
  intros H Hg. unfold GET, handle.
  apply Nat.ltb_ge in H. rewrite H.
  unfold keyOf, limitOf in Hg.
  unfold bind, getCacheM. rewrite Hg. reflexivity.
Qed.

Lemma GET_miss req env w C1 :
  (2 <= String.length (normalizeQuery P (queryOf req)))%nat ->
  getCache (keyOf P req) (now_get env) (CACHE w) = (None, C1) ->
  GET P req env w
  = let w1 := mkWorld C1 ((trace w ++ [EvGetCache (keyOf P req)])
                            ++ [EvFetch (searchUrl baseUrl (queryOf req))]) in
    match fetch env (searchUrl baseUrl (queryOf req)) with
    | Rejected e => (unexpected e, w1)
    | Responded false st _ =>
        (json (ErrorBody "Failed to fetch Sunbiz results." (Some st) None) 502, w1)
    | Responded true _ (Throw e) => (unexpected e, w1)
    | Responded true _ (Return html) =>
        match parseSunbiz P html baseUrl with
        | Throw e => (unexpected e, w1)
        | Return parsed =>
            let results := JSNumber.slice0 parsed (limitOf req) in
            (json (ResultsBody results None) 200,
             mkWorld (setCache (keyOf P req) results (now_set env) C1)
                     (trace w1 ++ [EvSetCache (keyOf P req)]))
        end
    end.
Proof.
  intros H Hg. unfold GET, handle.
  apply Nat.ltb_ge in H. rewrite H.
  unfold keyOf, limitOf in Hg.
  unfold bind, getCacheM. rewrite Hg.
  unfold fetchM, emit. simpl.
  destruct (fetch env _) as [e|ok st txt]; [reflexivity|].
  destruct ok; simpl; [|reflexivity].
  unfold lift.
  destruct txt as [html|e]; [|reflexivity].
  destruct (parseSunbiz _ html _) as [parsed|e]; reflexivity.
Qed.

End HandlerFacts.

(** ** The handler: validation, miss path, hit path *)

Section HandlerClaims.

Variable P : Platform.

Lemma missThenSuccess_GET req env w parsed :
  missThenSuccess P req env w parsed ->
  exists C1,
    getCache (keyOf P req) (now_get env) (CACHE w) = (None, C1) /\
    GET P req env w
    = (json (ResultsBody (JSNumber.slice0 parsed (limitOf req)) None) 200,
       mkWorld (setCache (keyOf P req) (JSNumber.slice0 parsed (limitOf req))
                         (now_set env) C1)
               (((trace w ++ [EvGetCache (keyOf P req)])
                   ++ [EvFetch (searchUrl baseUrl (queryOf req))])
                  ++ [EvSetCache (keyOf P req)])).
Proof.
  intros (Hlen & Hmiss & st & html & Hfetch & Hparse).
  destruct (getCache (keyOf P req) (now_get env) (CACHE w)) as [r C1] eqn:Hg.
  simpl in Hmiss. subst r.
  exists C1. split; [reflexivity|].
  rewrite (GET_miss P req env w Hlen Hg).
  cbv zeta. rewrite Hfetch, Hparse. reflexivity.
Qed.

Lemma fetches_app tr1 tr2 : fetches (tr1 ++ tr2) = (fetches tr1 ++ fetches tr2)%list.
Proof. unfold fetches. apply flat_map_app. Qed.

(** After a request that answered 200 the key of the request is in the
    cache, and the request made at most one fetch. *)
Lemma GET_200_caches req env w :
  http_status (fst (GET P req env w)) = 200 ->
  (exists hit, JSMap.get (keyOf P req) (CACHE (snd (GET P req env w))) = Some hit) /\
  (List.length (fetches (trace (snd (GET P req env w))))
   <= List.length (fetches (trace w)) + 1)%nat.
Proof.
  intros H200.
  destruct (Nat.ltb_spec (String.length (normalizeQuery P (queryOf req))) 2) as [Hs|Hl].
  { rewrite (GET_short P req env w Hs) in H200. discriminate. }
  destruct (getCache (keyOf P req) (now_get env) (CACHE w)) as [[c|] C1] eqn:Hg.
  - rewrite (GET_hit P req env w Hl Hg). simpl.
    apply getCache_Some_inv in Hg. destruct Hg as (-> & hit & Hhit & _ & _).
    split; [now exists hit|].
    rewrite fetches_app. simpl. rewrite length_app. simpl. lia.
  - rewrite (GET_miss P req env w Hl Hg) in *.
    cbv zeta in *.
    destruct (fetch env _) as [e|ok st txt]; [discriminate H200|].
    destruct ok; [|discriminate H200].
    destruct txt as [html|e]; [|discriminate H200].
    destruct (parseSunbiz _ html _) as [parsed|e]; [|discriminate H200].
    simpl. split.
    + eexists. apply setCache_get_same.
    + rewrite !fetches_app. simpl. rewrite !length_app. simpl. lia.
Qed.

End HandlerClaims.

(** C5: a query whose trimmed, lower-cased form is shorter than two
    characters is answered with the validation error and status 400; the
    world is returned as it was, so the trace gains no event (no fetch, no
    cache read, no cache write) and the cache holds the same entries. *)
Theorem short_query_rejected_without_effects :
  forall P req env w,
    (String.length (normalizeQuery P (queryOf req)) < 2)%nat ->
    fst (GET P req env w)
    = json (ErrorBody "Query must be at least 2 characters." None None) 400 /\
    snd (GET P req env w) = w /\
    fetches (trace (snd (GET P req env w))) = fetches (trace w) /\
    CACHE (snd (GET P req env w)) = CACHE w.
Proof.
  intros P req env w H.
  rewrite (GET_short P req env w H). simpl. auto.
Qed.

Lemma short_query_rejected_without_effects_witness :
  (String.length (normalizeQuery Sample.platform (queryOf (mkRequest (Some " A ") (Some "7")))) < 2)%nat /\
  fst (Sample.GET (mkRequest (Some " A ") (Some "7"))
                  (Sample.env (Sample.ok Sample.tesla_html)) Sample.emptyWorld)
  = json (ErrorBody "Query must be at least 2 characters." None None) 400 /\
  snd (Sample.GET (mkRequest (Some " A ") (Some "7"))
                  (Sample.env (Sample.ok Sample.tesla_html)) Sample.emptyWorld)
  = Sample.emptyWorld.
Proof.
  assert (H : (String.length (normalizeQuery Sample.platform (queryOf (mkRequest (Some " A ") (Some "7")))) < 2)%nat).
  { vm_compute. constructor. }
  split; [exact H|].
  destruct (@short_query_rejected_without_effects Sample.platform
              (mkRequest (Some " A ") (Some "7"))
              (Sample.env (Sample.ok Sample.tesla_html)) Sample.emptyWorld H)
    as (H1 & H2 & _).
  split; [exact H1 | exact H2].
Defined.

(** C3 (as the code has it): on a cache miss followed by a successful fetch
    on which the extractor returns, the handler stores the first [limit]
    extracted records, the very list it answers with, under the key
    [normalizedQuery ++ ":" ++ limit], expiring one TTL after the second
    reading of the clock. *)
Theorem miss_caches_first_limit_records :
  forall P req env w parsed,
    missThenSuccess P req env w parsed ->
    JSMap.get (keyOf P req) (CACHE (snd (GET P req env w)))
    = Some (mkEntry (JSNumber.slice0 parsed (limitOf req))
                    (now_set env + CACHE_TTL_MS)) /\
    keyOf P req
    = normalizeQuery P (queryOf req) ++ ":" ++ JSNumber.toString (limitOf req).
Proof.
  intros P req env w parsed H.
  destruct (missThenSuccess_GET H) as (C1 & _ & HG).
  rewrite HG. simpl. split; [apply setCache_get_same | reflexivity].
Qed.

Lemma sample_miss_two_rows :
  missThenSuccess Sample.platform
    (mkRequest (Some "Tesla") (Some "1"))
    (Sample.env (Sample.ok Sample.two_rows_html)) Sample.emptyWorld
    [Sample.tesla_record; Sample.motors_record].
Proof.
  repeat split.
  - vm_compute. repeat constructor.
  - exists 200, Sample.two_rows_html. split; vm_compute; reflexivity.
Defined.

Lemma miss_caches_first_limit_records_witness :
  missThenSuccess Sample.platform
    (mkRequest (Some "Tesla") (Some "1"))
    (Sample.env (Sample.ok Sample.two_rows_html)) Sample.emptyWorld
    [Sample.tesla_record; Sample.motors_record] /\
  JSMap.get (keyOf Sample.platform (mkRequest (Some "Tesla") (Some "1")))
    (CACHE (snd (Sample.GET (mkRequest (Some "Tesla") (Some "1"))
                   (Sample.env (Sample.ok Sample.two_rows_html)) Sample.emptyWorld)))
  = Some (mkEntry (JSNumber.slice0 [Sample.tesla_record; Sample.motors_record]
                     (limitOf (mkRequest (Some "Tesla") (Some "1"))))
                  (1001 + CACHE_TTL_MS)).
Proof.
  split; [exact sample_miss_two_rows|].
  exact (proj1 (@miss_caches_first_limit_records _ _ _ _ _ sample_miss_two_rows)).
Defined.

(** C3, the claim as stated fails: the registry answers "Tesla" with two
    rows, the limit is 1, and the entry stored under "tesla:1" holds the
    first record only, not the two records the extractor produced. *)
Lemma cache_holds_the_slice_not_the_full_sequence :
  Sample.parse Sample.two_rows_html baseUrl
  = Return [Sample.tesla_record; Sample.motors_record] /\
  JSMap.get "tesla:1"
    (CACHE (snd (Sample.GET (mkRequest (Some "Tesla") (Some "1"))
                   (Sample.env (Sample.ok Sample.two_rows_html)) Sample.emptyWorld)))
  = Some (mkEntry [Sample.tesla_record] 301001) /\
  [Sample.tesla_record] <> [Sample.tesla_record; Sample.motors_record].
Proof.
  split; [vm_compute; reflexivity|].
  split; [vm_compute; reflexivity|].
  discriminate.
Qed.

(** C8 (as the code has it): on a cache miss followed by a successful fetch
    on which the extractor returns, the response has status 200, its results
    are the first [limit] extracted records, and its body has no [fromCache]
    field. *)
Theorem miss_response_first_limit_records_untagged :
  forall P req env w parsed,
    missThenSuccess P req env w parsed ->
    fst (GET P req env w)
    = json (ResultsBody (JSNumber.slice0 parsed (limitOf req)) None) 200.
Proof.
  intros P req env w parsed H.
  destruct (missThenSuccess_GET H) as (C1 & _ & HG).
  now rewrite HG.
Qed.

Lemma sample_miss_tesla :
  missThenSuccess Sample.platform
    (mkRequest (Some "tesla") (Some "7"))
    (Sample.env (Sample.ok Sample.tesla_html)) Sample.emptyWorld
    [Sample.tesla_record].
Proof.
  repeat split.
  - vm_compute. repeat constructor.
  - exists 200, Sample.tesla_html. split; vm_compute; reflexivity.
Defined.

Lemma miss_response_first_limit_records_untagged_witness :
  missThenSuccess Sample.platform
    (mkRequest (Some "tesla") (Some "7"))
    (Sample.env (Sample.ok Sample.tesla_html)) Sample.emptyWorld
    [Sample.tesla_record] /\
  fst (Sample.GET (mkRequest (Some "tesla") (Some "7"))
         (Sample.env (Sample.ok Sample.tesla_html)) Sample.emptyWorld)
  = json (ResultsBody
            (JSNumber.slice0 [Sample.tesla_record]
               (limitOf (mkRequest (Some "tesla") (Some "7")))) None) 200.
Proof.
  split; [exact sample_miss_tesla|].
  exact (@miss_response_first_limit_records_untagged _ _ _ _ _ sample_miss_tesla).
Defined.

(** C8, the claim as stated fails: the response to a miss carries the
    record and no [fromCache] field at all, so it is not tagged
    [fromCache = false]. *)
Lemma miss_response_has_no_fromCache_field :
  fst (Sample.GET (mkRequest (Some "tesla") (Some "7"))
         (Sample.env (Sample.ok Sample.tesla_html)) Sample.emptyWorld)
  = json (ResultsBody [Sample.tesla_record] None) 200 /\
  fromCacheOf
    (fst (Sample.GET (mkRequest (Some "tesla") (Some "7"))
            (Sample.env (Sample.ok Sample.tesla_html)) Sample.emptyWorld))
  <> Some false.
Proof.
  split; [vm_compute; reflexivity | vm_compute; discriminate].
Qed.

(** C10: when a successful fetch yields no record, the empty list is stored
    under the key; a second identical request whose clock reading is within
    the TTL of that entry finds it (the empty list is a hit), answers with
    no results and [fromCache = true], and makes no fetch. *)
Theorem empty_result_is_cached_and_served :
  forall P req env1 env2 w,
    missThenSuccess P req env1 w [] ->
    now_get env2 <= now_set env1 + CACHE_TTL_MS ->
    JSMap.get (keyOf P req) (CACHE (snd (GET P req env1 w)))
    = Some (mkEntry [] (now_set env1 + CACHE_TTL_MS)) /\
    fst (GET P req env2 (snd (GET P req env1 w)))
    = json (ResultsBody [] (Some true)) 200 /\
    fetches (trace (snd (GET P req env2
                           (snd (GET P req env1 w)))))
    = fetches (trace (snd (GET P req env1 w))).
Proof.
  intros P req env1 env2 w Hmiss Hnow.
  pose proof Hmiss as (Hlen & _).
  destruct (missThenSuccess_GET Hmiss) as (C1 & _ & HG).
  rewrite HG. simpl. rewrite slice0_nil.
  assert (Hget : JSMap.get (keyOf P req) (setCache (keyOf P req) [] (now_set env1) C1)
                 = Some (mkEntry [] (now_set env1 + CACHE_TTL_MS)))
    by apply setCache_get_same.
  split; [exact Hget|].
  match goal with
  | |- context [GET P req env2 ?w1] =>
      rewrite (@GET_hit P req env2 w1 [] (CACHE w1) Hlen)
  end.
  - simpl. rewrite slice0_nil. split; [reflexivity|].
    rewrite fetches_app. simpl. apply app_nil_r.
  - simpl. now apply (getCache_hit (keyOf P req) _ Hget).
Qed.

Lemma sample_miss_empty :
  missThenSuccess Sample.platform
    (mkRequest (Some "zzyzx") None)
    (Sample.env (Sample.ok Sample.empty_html)) Sample.emptyWorld [].
Proof.
  repeat split.
  - vm_compute. repeat constructor.
  - exists 200, Sample.empty_html. split; vm_compute; reflexivity.
Defined.

Lemma empty_result_is_cached_and_served_witness :
  missThenSuccess Sample.platform
    (mkRequest (Some "zzyzx") None)
    (Sample.env (Sample.ok Sample.empty_html)) Sample.emptyWorld [] /\
  now_get (mkEnv 301001 301002 (Sample.network Sample.unavailable))
  <= now_set (Sample.env (Sample.ok Sample.empty_html)) + CACHE_TTL_MS /\
  fst (Sample.GET (mkRequest (Some "zzyzx") None)
         (mkEnv 301001 301002 (Sample.network Sample.unavailable))
         (snd (Sample.GET (mkRequest (Some "zzyzx") None)
                 (Sample.env (Sample.ok Sample.empty_html)) Sample.emptyWorld)))
  = json (ResultsBody [] (Some true)) 200.
Proof.
  assert (Hnow : now_get (mkEnv 301001 301002 (Sample.network Sample.unavailable))
                 <= now_set (Sample.env (Sample.ok Sample.empty_html)) + CACHE_TTL_MS).
  { vm_compute. discriminate. }
  split; [exact sample_miss_empty|]. split; [exact Hnow|].
  exact (proj1 (proj2 (@empty_result_is_cached_and_served _ _ _ _ _ sample_miss_empty Hnow))).
Defined.

(** C4 (as the code has it): when a request for a query of normalised
    length at least 2 is answered with results (status 200: a hit, or a miss
    whose fetch succeeded and whose extraction returned), its key is in the
    cache afterwards; an immediately repeated request that reads the clock
    before that entry expires is a cache hit: it answers with the first
    [limit] cached records and [fromCache = true] and makes no fetch, so the
    two requests make at most one fetch. *)
Theorem repeated_request_hits_cache :
  forall P req env1 env2 w,
    (2 <= String.length (normalizeQuery P (queryOf req)))%nat ->
    http_status (fst (GET P req env1 w)) = 200 ->
    (forall e,
        JSMap.get (keyOf P req) (CACHE (snd (GET P req env1 w))) = Some e ->
        now_get env2 <= expiresAt e) ->
    exists hit,
      JSMap.get (keyOf P req) (CACHE (snd (GET P req env1 w))) = Some hit /\
      fst (GET P req env2 (snd (GET P req env1 w)))
      = json (ResultsBody (JSNumber.slice0 (value hit) (limitOf req)) (Some true)) 200 /\
      fetches (trace (snd (GET P req env2
                             (snd (GET P req env1 w)))))
      = fetches (trace (snd (GET P req env1 w))) /\
      (List.length
         (fetches (trace (snd (GET P req env2
                                 (snd (GET P req env1 w))))))
       <= List.length (fetches (trace w)) + 1)%nat.
Proof.
  intros P req env1 env2 w Hlen H200 Hfresh.
  destruct (GET_200_caches P req env1 w H200) as ((hit & Hhit) & Hcount).
  set (w1 := snd (GET P req env1 w)) in *.
  exists hit. split; [exact Hhit|].
  rewrite (@GET_hit P req env2 w1 (value hit) (CACHE w1) Hlen
             (getCache_hit (keyOf P req) (CACHE w1) Hhit (Hfresh hit Hhit))).
  simpl. split; [reflexivity|].
  rewrite fetches_app. simpl. rewrite app_nil_r.
  split; [reflexivity | exact Hcount].
Qed.

Lemma repeated_request_hits_cache_witness :
  fst (Sample.GET (mkRequest (Some "tesla") (Some "7"))
         (mkEnv 2000 2001 (Sample.network Sample.unavailable))
         (snd (Sample.GET (mkRequest (Some "tesla") (Some "7"))
                 (Sample.env (Sample.ok Sample.tesla_html)) Sample.emptyWorld)))
  = json (ResultsBody [Sample.tesla_record] (Some true)) 200 /\
  List.length
    (fetches (trace (snd (Sample.GET (mkRequest (Some "tesla") (Some "7"))
         (mkEnv 2000 2001 (Sample.network Sample.unavailable))
         (snd (Sample.GET (mkRequest (Some "tesla") (Some "7"))
                 (Sample.env (Sample.ok Sample.tesla_html)) Sample.emptyWorld))))))
  = 1%nat.
Proof.
  assert (Hlen : (2 <= String.length (normalizeQuery Sample.platform (queryOf (mkRequest (Some "tesla") (Some "7")))))%nat).
  { vm_compute. repeat constructor. }
  assert (H200 : http_status (fst (GET Sample.platform
                   (mkRequest (Some "tesla") (Some "7"))
                   (Sample.env (Sample.ok Sample.tesla_html)) Sample.emptyWorld)) = 200).
  { vm_compute. reflexivity. }
  assert (Hfresh : forall e,
             JSMap.get (keyOf Sample.platform (mkRequest (Some "tesla") (Some "7")))
               (CACHE (snd (GET Sample.platform
                   (mkRequest (Some "tesla") (Some "7"))
                   (Sample.env (Sample.ok Sample.tesla_html)) Sample.emptyWorld))) = Some e ->
             now_get (mkEnv 2000 2001 (Sample.network Sample.unavailable)) <= expiresAt e).
  { intros e He. vm_compute in He. inversion He. vm_compute. discriminate. }
  destruct (@repeated_request_hits_cache Sample.platform
              (mkRequest (Some "tesla") (Some "7"))
              (Sample.env (Sample.ok Sample.tesla_html))
              (mkEnv 2000 2001 (Sample.network Sample.unavailable))
              Sample.emptyWorld Hlen H200 Hfresh)
    as (hit & Hhit & Hresp & Hsame & _).
  vm_compute in Hhit. inversion Hhit as [Hv]. subst hit.
  split; [exact Hresp|].
  vm_compute. reflexivity.
Defined.

(** C4, the claim as stated fails: the registry answers 503, so nothing is
    cached; the same request made again fetches again. The second answer is
    a 502 and not a cache hit, and the two requests made two fetches. *)
Lemma failed_fetch_is_fetched_again :
  http_status
    (fst (Sample.GET (mkRequest (Some "tesla") (Some "7"))
            (Sample.env Sample.unavailable)
            (snd (Sample.GET (mkRequest (Some "tesla") (Some "7"))
                    (Sample.env Sample.unavailable) Sample.emptyWorld))))
  = 502 /\
  List.length
    (fetches (trace (snd (Sample.GET (mkRequest (Some "tesla") (Some "7"))
            (Sample.env Sample.unavailable)
            (snd (Sample.GET (mkRequest (Some "tesla") (Some "7"))
                    (Sample.env Sample.unavailable) Sample.emptyWorld))))))
  = 2%nat.
Proof. split; vm_compute; reflexivity. Qed.

(** ** The cache: expiry *)

(** C6: [getCache] returns a value only from an entry whose [expiresAt] is
    not before the clock reading; a fresh entry is returned and the cache is
    left alone; an expired entry is deleted by the lookup and absence is
    reported. So an entry set at time [T] is returned at every reading up to
    [T + TTL] and at none after it. *)
Theorem getCache_returns_only_fresh_entries :
  forall key now c v T,
    (fst (getCache key now c) = Some v ->
     exists hit, JSMap.get key c = Some hit /\ value hit = v /\ now <= expiresAt hit) /\
    (forall hit, JSMap.get key c = Some hit -> now <= expiresAt hit ->
                 getCache key now c = (Some (value hit), c)) /\
    (forall hit, JSMap.get key c = Some hit -> expiresAt hit < now ->
                 getCache key now c = (None, JSMap.delete key c) /\
                 JSMap.get key (snd (getCache key now c)) = None) /\
    fst (getCache key now (setCache key v T c))
    = (if now <=? T + CACHE_TTL_MS then Some v else None).
Proof.
  intros key now c v T. split; [|split; [|split]].
  - destruct (getCache key now c) as [r c'] eqn:Hg. simpl. intros ->.
    apply getCache_Some_inv in Hg. tauto.
  - intros hit Hg Hle. now apply getCache_hit.
  - intros hit Hg Hlt. rewrite (getCache_expired key c Hg Hlt). simpl.
    split; [reflexivity | apply JSMapFacts.get_delete_same].
  - pose proof (setCache_get_same key v T c) as Hs.
    destruct (Z.leb_spec now (T + CACHE_TTL_MS)) as [Hle|Hgt].
    + now rewrite (getCache_hit key (setCache key v T c) Hs).
    + now rewrite (getCache_expired key (setCache key v T c) Hs).
Qed.

Example getCache_at_the_edge_of_the_TTL :
  fst (getCache "tesla:7" (1000 + CACHE_TTL_MS) (setCache "tesla:7" [Sample.tesla_record] 1000 []))
  = Some [Sample.tesla_record] /\
  getCache "tesla:7" (1001 + CACHE_TTL_MS) (setCache "tesla:7" [Sample.tesla_record] 1000 [])
  = (None, []).
Proof. split; vm_compute; reflexivity. Qed.

(** ** The cache: capacity and eviction order *)

Module EvictionFacts.
Import JSMap.

Lemma keys_set_fresh k e m : ~ In k (keys m) -> keys (set k e m) = (keys m ++ [k])%list.
Proof.
  induction m as [|[k' e'] r IH]; simpl; intros Hn; [reflexivity|].
  destruct (String.eqb k' k) eqn:E.
  - apply String.eqb_eq in E. tauto.
  - simpl. f_equal. apply IH. tauto.
Qed.

Lemma keys_set_present k e m : In k (keys m) -> keys (set k e m) = keys m.
Proof.
  induction m as [|[k' e'] r IH]; simpl; intros Hin; [tauto|].
  destruct (String.eqb k' k) eqn:E.
  - apply String.eqb_eq in E. now subst.
  - apply String.eqb_neq in E. simpl. f_equal. apply IH. tauto.
Qed.

Lemma keys_set_cases k e m :
  keys (set k e m) = keys m \/ (~ In k (keys m) /\ keys (set k e m) = (keys m ++ [k])%list).
Proof.
  destruct (in_dec string_dec k (keys m)) as [Hin|Hn].
  - left. now apply keys_set_present.
  - right. split; [assumption | now apply keys_set_fresh].
Qed.

Lemma wf_set k e m : wf m -> wf (set k e m).
Proof.
  unfold wf. intros Hwf.
  destruct (keys_set_cases k e m) as [-> | [Hn ->]]; [assumption|].
  apply NoDup_app; [assumption | repeat constructor; simpl; tauto |].
  intros a Ha [<-|[]]. contradiction.
Qed.

Lemma delete_absent k m : ~ In k (keys m) -> delete k m = m.
Proof.
  induction m as [|[k' e'] r IH]; simpl; intros Hn; [reflexivity|].
  destruct (String.eqb k' k) eqn:E.
  - apply String.eqb_eq in E. tauto.
  - simpl. f_equal. apply IH. tauto.
Qed.

Lemma delete_head k e r : wf ((k, e) :: r) -> delete k ((k, e) :: r) = r.
Proof.
  unfold wf. simpl. intros Hwf. apply NoDup_cons_iff in Hwf as [Hn _].
  rewrite String.eqb_refl. simpl. now apply delete_absent.
Qed.

End EvictionFacts.

Lemma setCache_below_capacity key v now c :
  JSMap.size c < CACHE_MAX_ENTRIES ->
  setCache key v now c = JSMap.set key (mkEntry v (now + CACHE_TTL_MS)) c.
Proof.
  intros H. unfold setCache.
  destruct (JSMap.size c >=? CACHE_MAX_ENTRIES) eqn:E; [|reflexivity].
  rewrite Z.geb_leb in E. apply Z.leb_le in E. lia.
Qed.

Lemma setCache_at_capacity key v now k0 e0 r :
  JSMap.wf ((k0, e0) :: r) -> k0 <> "" ->
  CACHE_MAX_ENTRIES <= JSMap.size ((k0, e0) :: r) ->
  setCache key v now ((k0, e0) :: r)
  = JSMap.set key (mkEntry v (now + CACHE_TTL_MS)) r.
Proof.
  intros Hwf Hne H. unfold setCache.
  destruct (JSMap.size ((k0, e0) :: r) >=? CACHE_MAX_ENTRIES) eqn:E.
  - unfold JSMap.firstKey.
    destruct k0 as [|a k0]; [congruence|].
    cbn [JSString.truthy]. now rewrite EvictionFacts.delete_head.
  - rewrite Z.geb_leb in E. apply Z.leb_gt in E. lia.
Qed.

(** One call with the oldest key non-empty: the bound and the shape of the
    map are kept, and the keys are those of the map, without the oldest one
    when the map was full, with the new key at the end when it is new. *)
Lemma setCache_step key v now c :
  JSMap.wf c -> JSMap.size c <= CACHE_MAX_ENTRIES ->
  (forall k, In k (JSMap.keys c) -> k <> "") ->
  JSMap.wf (setCache key v now c) /\
  JSMap.size (setCache key v now c) <= CACHE_MAX_ENTRIES /\
  (forall k, In k (JSMap.keys (setCache key v now c)) -> In k (JSMap.keys c) \/ k = key) /\
  (~ In key (JSMap.keys c) ->
   JSMap.keys (setCache key v now c)
   = lastn (Z.to_nat CACHE_MAX_ENTRIES) (JSMap.keys c ++ [key])).
Proof.
  intros Hwf Hsize Hne.
  destruct (Z.lt_ge_cases (JSMap.size c) CACHE_MAX_ENTRIES) as [Hlt|Hge].
  - rewrite (setCache_below_capacity key v now c Hlt).
    split; [now apply EvictionFacts.wf_set|].
    unfold JSMap.size, CACHE_MAX_ENTRIES in *.
    destruct (EvictionFacts.keys_set_cases key (mkEntry v (now + CACHE_TTL_MS)) c)
      as [Hk | [Hn Hk]].
    + assert (Hl : List.length (JSMap.set key (mkEntry v (now + CACHE_TTL_MS)) c)
                   = List.length c).
      { rewrite <- (length_map fst), <- (length_map fst c).
        unfold JSMap.keys in Hk. now rewrite Hk. }
      rewrite Hl. split; [lia|]. split.
      * intros k Hin. rewrite Hk in Hin. now left.
      * intros Hn. exfalso. apply Hn.
        apply JSMapFacts.get_In_keys.
        assert (Hg := JSMapFacts.get_set_same key (mkEntry v (now + CACHE_TTL_MS)) c).
        assert (Hin : In key (JSMap.keys (JSMap.set key (mkEntry v (now + CACHE_TTL_MS)) c))).
        { apply JSMapFacts.get_In_keys. rewrite Hg. discriminate. }
        rewrite Hk in Hin. now apply JSMapFacts.get_In_keys.
    + assert (Hl : List.length (JSMap.set key (mkEntry v (now + CACHE_TTL_MS)) c)
                   = S (List.length c)).
      { rewrite <- (length_map fst). unfold JSMap.keys in Hk. rewrite Hk.
        rewrite length_app, length_map. simpl. lia. }
      rewrite Hl. split; [lia|]. split.
      * intros k Hin. rewrite Hk in Hin. apply in_app_or in Hin.
        destruct Hin as [Hin|[<-|[]]]; [now left | now right].
      * intros _. rewrite Hk. unfold lastn, JSMap.keys.
        rewrite length_app, (length_map fst c). cbn [List.length].
        match goal with |- _ = skipn ?n _ => replace n with 0%nat by lia end.
        reflexivity.
  - destruct c as [|[k0 e0] r].
    { unfold JSMap.size, CACHE_MAX_ENTRIES in Hge. simpl in Hge. lia. }
    assert (Hk0 : k0 <> "") by (apply Hne; simpl; now left).
    rewrite (setCache_at_capacity key v now Hwf Hk0 Hge).
    assert (Hwfr : JSMap.wf r).
    { unfold JSMap.wf in *. simpl in Hwf. now apply NoDup_cons_iff in Hwf as [_ ?]. }
    split; [now apply EvictionFacts.wf_set|].
    unfold JSMap.size, CACHE_MAX_ENTRIES in *. simpl List.length in *.
    destruct (EvictionFacts.keys_set_cases key (mkEntry v (now + CACHE_TTL_MS)) r)
      as [Hk | [Hn Hk]].
    + assert (Hl : List.length (JSMap.set key (mkEntry v (now + CACHE_TTL_MS)) r)
                   = List.length r).
      { rewrite <- (length_map fst), <- (length_map fst r).
        unfold JSMap.keys in Hk. now rewrite Hk. }
      rewrite Hl. split; [lia|]. split.
      * intros k Hin. rewrite Hk in Hin. left. simpl. now right.
      * intros Hn. exfalso. apply Hn. simpl. right.
        assert (Hg := JSMapFacts.get_set_same key (mkEntry v (now + CACHE_TTL_MS)) r).
        assert (Hin : In key (JSMap.keys (JSMap.set key (mkEntry v (now + CACHE_TTL_MS)) r))).
        { apply JSMapFacts.get_In_keys. rewrite Hg. discriminate. }
        now rewrite Hk in Hin.
    + assert (Hl : List.length (JSMap.set key (mkEntry v (now + CACHE_TTL_MS)) r)
                   = S (List.length r)).
      { rewrite <- (length_map fst). unfold JSMap.keys in Hk. rewrite Hk.
        rewrite length_app, length_map. simpl. lia. }
      rewrite Hl. split; [lia|]. split.
      * intros k Hin. rewrite Hk in Hin. apply in_app_or in Hin.
        destruct Hin as [Hin|[<-|[]]]; [left; simpl; now right | now right].
      * intros _. rewrite Hk. unfold lastn, JSMap.keys.
        rewrite length_app, (length_map fst ((k0, e0) :: r)). cbn [List.length].
        match goal with |- _ = skipn ?n _ => replace n with 1%nat by lia end.
        reflexivity.
Qed.

Lemma lastn_app_absorb {A : Type} (n : nat) (l r : list A) :
  lastn n (lastn n l ++ r) = lastn n (l ++ r).
Proof.
  unfold lastn.
  rewrite !length_app, length_skipn, !skipn_app, skipn_skipn, length_skipn.
  f_equal; f_equal; lia.
Qed.

Lemma lastn_short {A : Type} (n : nat) (l : list A) :
  (List.length l <= n)%nat -> lastn n l = l.
Proof.
  intros H. unfold lastn.
  replace (List.length l - n)%nat with 0%nat by lia. reflexivity.
Qed.

Lemma setCache_get_other key v now c k :
  k <> key ->
  JSMap.get k (setCache key v now c) = JSMap.get k c \/
  JSMap.get k (setCache key v now c) = None.
Proof.
  intros Hne. unfold setCache.
  rewrite JSMapFacts.get_set_other by congruence.
  destruct (JSMap.size c >=? CACHE_MAX_ENTRIES); [|now left].
  destruct (JSMap.firstKey c) as [k0|]; [|now left].
  destruct (JSString.truthy k0); [|now left].
  destruct (string_dec k0 k) as [->|Hk].
  - right. apply JSMapFacts.get_delete_same.
  - left. now apply JSMapFacts.get_delete_other.
Qed.

Lemma insertAll_get_other ins : forall c k,
  ~ In k (map insKey ins) ->
  JSMap.get k (insertAll ins c) = JSMap.get k c \/
  JSMap.get k (insertAll ins c) = None.
Proof.
  induction ins as [|[[k0 v0] t0] rest IH]; intros c k Hn; [now left|].
  simpl in Hn. cbn [insertAll fold_left fst snd].
  change (fold_left _ rest ?c0) with (insertAll rest c0).
  destruct (IH (setCache k0 v0 t0 c) k) as [E|E]; [tauto | | now right].
  rewrite E. apply setCache_get_other. unfold insKey in Hn. simpl in Hn. intuition congruence.
Qed.

Lemma insertAll_cons i rest c :
  insertAll (i :: rest) c
  = insertAll rest (setCache (fst (fst i)) (snd (fst i)) (snd i) c).
Proof. reflexivity. Qed.

Lemma keys_delete_incl k m x : In x (JSMap.keys (JSMap.delete k m)) -> In x (JSMap.keys m).
Proof.
  unfold JSMap.keys, JSMap.delete. intros H.
  apply in_map_iff in H as (p & <- & Hp). apply filter_In in Hp as [Hp _].
  now apply in_map.
Qed.

Lemma wf_delete k m : JSMap.wf m -> JSMap.wf (JSMap.delete k m).
Proof.
  unfold JSMap.wf. induction m as [|[k' e'] r IH]; simpl; intros H; [constructor|].
  apply NoDup_cons_iff in H as [Hn Hr].
  destruct (String.eqb k' k); simpl; [now apply IH|].
  constructor; [|now apply IH].
  intros Hin. apply Hn. now apply (keys_delete_incl k r).
Qed.

Lemma size_delete k m : JSMap.size (JSMap.delete k m) <= JSMap.size m.
Proof.
  unfold JSMap.size, JSMap.delete.
  pose proof (filter_length_le (fun p : string * CacheEntry => negb (String.eqb (fst p) k)) m).
  lia.
Qed.

Lemma cacheOk_delete k c : cacheOk c -> cacheOk (JSMap.delete k c).
Proof.
  intros (Hwf & Hsize & Hne). split; [now apply wf_delete|]. split.
  - pose proof (size_delete k c). lia.
  - intros x Hx. apply Hne. now apply (keys_delete_incl k c).
Qed.

Lemma cacheOk_setCache key v now c :
  key <> "" -> cacheOk c -> cacheOk (setCache key v now c).
Proof.
  intros Hkey (Hwf & Hsize & Hne).
  destruct (setCache_step key v now Hwf Hsize Hne) as (Hwf1 & Hsize1 & Hsub & _).
  split; [assumption|]. split; [assumption|].
  intros k Hk. destruct (Hsub k Hk) as [Hin| ->]; [now apply Hne | assumption].
Qed.

Lemma keyOf_nonempty P req : keyOf P req <> "".
Proof.
  unfold keyOf, cacheKeyOf.
  destruct (normalizeQuery P (queryOf req)); discriminate.
Qed.

(** Every request leaves the cache within its bound, whatever the network
    answers: the precondition on keys is met by the handler itself. *)
Lemma GET_keeps_cacheOk P req env w :
  cacheOk (CACHE w) -> cacheOk (CACHE (snd (GET P req env w))).
Proof.
  intros Hok.
  destruct (Nat.ltb_spec (String.length (normalizeQuery P (queryOf req))) 2) as [Hs|Hl].
  { now rewrite (GET_short P req env w Hs). }
  destruct (getCache (keyOf P req) (now_get env) (CACHE w)) as [[c|] C1] eqn:Hg.
  - rewrite (GET_hit P req env w Hl Hg). simpl.
    apply getCache_Some_inv in Hg. now destruct Hg as (-> & _).
  - assert (HC1 : cacheOk C1).
    { unfold getCache in Hg. destruct (JSMap.get (keyOf P req) (CACHE w)) as [hit|].
      - destruct (now_get env >? expiresAt hit); inversion Hg; subst.
        now apply cacheOk_delete.
      - inversion Hg; now subst. }
    rewrite (GET_miss P req env w Hl Hg). cbv zeta.
    destruct (fetch env _) as [e|ok st txt]; [exact HC1|].
    destruct ok; [|exact HC1].
    destruct txt as [html|e]; [|exact HC1].
    destruct (parseSunbiz _ html _) as [parsed|e]; [|exact HC1].
    simpl. apply cacheOk_setCache; [apply keyOf_nonempty | exact HC1].
Qed.

(** A run of [setCache] calls on a map without the empty key keeps the
    map within 200 entries, and when the keys are distinct the map holds
    exactly the most recent 200 of them in insertion order, each with the
    value and expiry of its call. *)
Lemma insertAll_keeps_the_most_recent_keys :
  forall ins c,
    JSMap.wf c ->
    JSMap.size c <= CACHE_MAX_ENTRIES ->
    (forall k, In k (JSMap.keys c ++ map insKey ins) -> k <> "") ->
    JSMap.size (insertAll ins c) <= CACHE_MAX_ENTRIES /\
    JSMap.wf (insertAll ins c) /\
    (NoDup (JSMap.keys c ++ map insKey ins) ->
     JSMap.keys (insertAll ins c)
     = lastn (Z.to_nat CACHE_MAX_ENTRIES) (JSMap.keys c ++ map insKey ins) /\
     forall k v t,
       In (k, v, t) ins -> In k (JSMap.keys (insertAll ins c)) ->
       JSMap.get k (insertAll ins c) = Some (mkEntry v (t + CACHE_TTL_MS))).
Proof.
  induction ins as [|[[k0 v0] t0] rest IH]; intros c Hwf Hsize Hne.
  - simpl. split; [assumption|]. split; [assumption|].
    intros _. split; [|intros k v t Hin; destruct Hin].
    rewrite app_nil_r. symmetry. apply lastn_short.
    unfold JSMap.keys. rewrite length_map.
    unfold JSMap.size, CACHE_MAX_ENTRIES in *. lia.
  - rewrite insertAll_cons. cbn [fst snd].
    assert (Hne0 : forall k, In k (JSMap.keys c) -> k <> "").
    { intros k Hin. apply Hne. apply in_or_app. now left. }
    destruct (setCache_step k0 v0 t0 Hwf Hsize Hne0) as (Hwf1 & Hsize1 & Hsub & Hkeys1).
    assert (Hne1 : forall k, In k (JSMap.keys (setCache k0 v0 t0 c) ++ map insKey rest) -> k <> "").
    { intros k Hin. apply Hne. apply in_app_or in Hin. apply in_or_app.
      destruct Hin as [Hin|Hin].
      - destruct (Hsub k Hin) as [Hc| ->]; [now left | right; simpl; now left].
      - right. simpl. now right. }
    destruct (IH (setCache k0 v0 t0 c) Hwf1 Hsize1 Hne1) as (Hs & Hw & Hnd).
    split; [assumption|]. split; [assumption|].
    intros Hdup. cbn [map] in Hdup. unfold insKey at 1 in Hdup. cbn [fst] in Hdup.
    assert (Hfresh : ~ In k0 (JSMap.keys c)).
    { apply NoDup_remove_2 in Hdup. intros Hin. apply Hdup. apply in_or_app. now left. }
    assert (Hrest : ~ In k0 (map insKey rest)).
    { apply NoDup_remove_2 in Hdup. intros Hin. apply Hdup. apply in_or_app. now right. }
    specialize (Hkeys1 Hfresh).
    assert (Hdup1 : NoDup (JSMap.keys (setCache k0 v0 t0 c) ++ map insKey rest)).
    { apply NoDup_app.
      - exact Hwf1.
      - apply NoDup_app_remove_l in Hdup. now apply NoDup_cons_iff in Hdup as [_ ?].
      - intros a Ha Hb. destruct (Hsub a Ha) as [Hin| ->]; [|contradiction].
        apply NoDup_remove_1 in Hdup.
        clear - Hdup Hin Hb.
        induction (JSMap.keys c) as [|x l IHl]; [destruct Hin|].
        simpl in Hdup. apply NoDup_cons_iff in Hdup as [Hx Hl].
        destruct Hin as [->|Hin]; [apply Hx, in_or_app; now right | now apply IHl]. }
    destruct (Hnd Hdup1) as (Hk & Hent). split.
    + rewrite Hk, Hkeys1, lastn_app_absorb, <- app_assoc. reflexivity.
    + intros k v t [Heq|Hin] Hpresent.
      * inversion Heq; subst k v t.
        destruct (insertAll_get_other rest (setCache k0 v0 t0 c) k0 Hrest) as [E|E].
        -- rewrite E. apply setCache_get_same.
        -- apply JSMapFacts.get_In_keys in Hpresent. contradiction.
      * now apply Hent.
Qed.

Lemma truthy_keys_nonempty (l : list string) :
  forallb JSString.truthy l = true -> forall k, In k l -> k <> "".
Proof.
  intros H k Hin ->.
  rewrite forallb_forall in H. specialize (H _ Hin). discriminate.
Qed.

Lemma nodup_fixed_NoDup (l : list string) : nodup string_dec l = l -> NoDup l.
Proof. intros <-. apply NoDup_nodup. Qed.

Lemma reachable_cacheOk P w : reachable P w -> cacheOk (CACHE w).
Proof.
  induction 1 as [|req env w Hreach IH].
  - split; [constructor|]. split; [vm_compute; discriminate | intros k []].
  - now apply GET_keeps_cacheOk.
Qed.

(** The cache [setCache] is called on, after the lookup of the same
    request, is the cache of a reachable world: the one the request leaves
    when its fetch is rejected. *)
Lemma cache_at_setCache_is_reachable P req env w :
  reachable P w ->
  (2 <= String.length (normalizeQuery P (queryOf req)))%nat ->
  exists w',
    reachable P w' /\
    CACHE w' = snd (getCache (keyOf P req) (now_get env) (CACHE w)).
Proof.
  intros Hreach Hlen.
  set (env' := mkEnv (now_get env) (now_set env) (fun _ => Rejected (mkExn "TypeError" "fetch failed"))).
  exists (snd (GET P req env' w)).
  split; [now constructor|].
  change (now_get env) with (now_get env').
  destruct (getCache (keyOf P req) (now_get env') (CACHE w)) as [[c|] C1] eqn:Hg.
  - now rewrite (@GET_hit P req env' w c C1 Hlen Hg).
  - now rewrite (@GET_miss P req env' w C1 Hlen Hg).
Qed.

Lemma handlerInsertions_keys P calls :
  map insKey (handlerInsertions P calls)
  = map (fun c : handlerCall => keyOf P (fst (fst c))) calls.
Proof. unfold handlerInsertions. now rewrite map_map. Qed.

Lemma handlerInsertions_nonempty P calls k :
  In k (map insKey (handlerInsertions P calls)) -> k <> "".
Proof.
  rewrite handlerInsertions_keys. intros H.
  apply in_map_iff in H as (c & <- & _). apply keyOf_nonempty.
Qed.

Lemma get_absent k m : ~ In k (JSMap.keys m) -> JSMap.get k m = None.
Proof.
  intros H. destruct (JSMap.get k m) eqn:E; [|reflexivity].
  exfalso. apply H. apply JSMapFacts.get_In_keys. rewrite E. discriminate.
Qed.

(** C7: in every world the handler reaches, and for every key it builds,
    [setCache] keeps the cache within 200 entries. Below capacity it only
    stores the entry; at capacity the cache has an oldest entry, and the
    call removes exactly that entry, which is then gone, before it stores
    the new one. After a run of the handler's calls whose keys are distinct
    and new, the cache holds the most recent 200 keys in insertion order:
    an older key is not retrievable at any time, and each of the most
    recent 200 is retrievable, with the records of its call, until its
    time to live has passed. *)
Theorem cache_stays_bounded_and_evicts_the_oldest_key :
  forall P w req v now calls,
    reachable P w ->
    JSMap.size (setCache (keyOf P req) v now (CACHE w)) <= CACHE_MAX_ENTRIES /\
    (JSMap.size (CACHE w) < CACHE_MAX_ENTRIES ->
     setCache (keyOf P req) v now (CACHE w)
     = JSMap.set (keyOf P req) (mkEntry v (now + CACHE_TTL_MS)) (CACHE w)) /\
    (CACHE_MAX_ENTRIES <= JSMap.size (CACHE w) ->
     exists k0 e0 r,
       CACHE w = (k0, e0) :: r /\
       JSMap.get k0 r = None /\
       setCache (keyOf P req) v now (CACHE w)
       = JSMap.set (keyOf P req) (mkEntry v (now + CACHE_TTL_MS)) r) /\
    JSMap.size (insertAll (handlerInsertions P calls) (CACHE w))
    <= CACHE_MAX_ENTRIES /\
    (NoDup (JSMap.keys (CACHE w) ++ map insKey (handlerInsertions P calls)) ->
     JSMap.keys (insertAll (handlerInsertions P calls) (CACHE w))
     = lastn (Z.to_nat CACHE_MAX_ENTRIES)
             (JSMap.keys (CACHE w) ++ map insKey (handlerInsertions P calls)) /\
     (forall k t,
         ~ In k (lastn (Z.to_nat CACHE_MAX_ENTRIES)
                       (JSMap.keys (CACHE w)
                          ++ map insKey (handlerInsertions P calls))) ->
         fst (getCache k t (insertAll (handlerInsertions P calls) (CACHE w)))
         = None) /\
     (forall rq v' t t',
         In (rq, v', t) calls ->
         In (keyOf P rq)
            (lastn (Z.to_nat CACHE_MAX_ENTRIES)
                   (JSMap.keys (CACHE w)
                      ++ map insKey (handlerInsertions P calls))) ->
         t' <= t + CACHE_TTL_MS ->
         fst (getCache (keyOf P rq) t'
                (insertAll (handlerInsertions P calls) (CACHE w)))
         = Some v')).
Proof.
  intros P w req v now calls Hreach.
  destruct (reachable_cacheOk Hreach) as (Hwf & Hsize & Hne).
  split.
  { now destruct (setCache_step (keyOf P req) v now Hwf Hsize Hne) as (_ & H & _). }
  split; [apply setCache_below_capacity|].
  split.
  { intros Hfull. destruct (CACHE w) as [|[k0 e0] r] eqn:Ec.
    - unfold JSMap.size, CACHE_MAX_ENTRIES in Hfull. simpl in Hfull. lia.
    - exists k0, e0, r. split; [reflexivity|]. split.
      + apply get_absent. unfold JSMap.wf in Hwf. simpl in Hwf.
        now apply NoDup_cons_iff in Hwf as [Hwf _].
      + apply setCache_at_capacity; try assumption.
        apply Hne. simpl. now left. }
  assert (Hall : forall k,
             In k (JSMap.keys (CACHE w) ++ map insKey (handlerInsertions P calls)) ->
             k <> "").
  { intros k Hk. apply in_app_or in Hk as [Hk|Hk];
      [now apply Hne | now apply (handlerInsertions_nonempty P calls)]. }
  destruct (insertAll_keeps_the_most_recent_keys
              (handlerInsertions P calls) Hwf Hsize Hall) as (Hbound & _ & Hrun).
  split; [exact Hbound|].
  intros Hdup. destruct (Hrun Hdup) as (Hkeys & Hent).
  split; [exact Hkeys|]. split.
  - intros k t Hk. rewrite getCache_absent; [reflexivity|].
    apply get_absent. now rewrite Hkeys.
  - intros rq v' t t' Hin Hk Hfresh.
    assert (Hins : In (keyOf P rq, v', t) (handlerInsertions P calls)).
    { unfold handlerInsertions. apply in_map_iff. exists (rq, v', t). now split. }
    rewrite <- Hkeys in Hk.
    rewrite (getCache_hit (keyOf P rq) _ (Hent _ _ _ Hins Hk)); [reflexivity|].
    exact Hfresh.
Qed.

(** 201 requests with distinct queries on the empty cache: the key of the
    first is no longer retrievable, the keys of the other 200 are there in
    the order of their requests. *)
Lemma cache_stays_bounded_and_evicts_the_oldest_key_witness :
  reachable Sample.platform Sample.emptyWorld /\
  List.length Sample.manyCalls = 201%nat /\
  NoDup (map (keyOf Sample.platform) Sample.manyRequests) /\
  JSMap.keys (insertAll (handlerInsertions Sample.platform Sample.manyCalls) [])
  = tl (map (keyOf Sample.platform) Sample.manyRequests) /\
  fst (getCache (keyOf Sample.platform (Sample.request 1)) 0
         (insertAll (handlerInsertions Sample.platform Sample.manyCalls) []))
  = None /\
  fst (getCache (keyOf Sample.platform (Sample.request 201)) CACHE_TTL_MS
         (insertAll (handlerInsertions Sample.platform Sample.manyCalls) []))
  = Some [].
Proof.
  assert (Hreach : reachable Sample.platform Sample.emptyWorld)
    by apply reach_start.
  assert (Hdup : NoDup (map (keyOf Sample.platform) Sample.manyRequests)).
  { apply nodup_fixed_NoDup. vm_compute. reflexivity. }
  assert (Hdup' : NoDup (JSMap.keys (CACHE Sample.emptyWorld)
                           ++ map insKey (handlerInsertions Sample.platform
                                                            Sample.manyCalls))).
  { apply nodup_fixed_NoDup. vm_compute. reflexivity. }
  destruct (@cache_stays_bounded_and_evicts_the_oldest_key
              Sample.platform Sample.emptyWorld (Sample.request 1) [] 0
              Sample.manyCalls Hreach) as (_ & _ & _ & _ & Hrun).
  destruct (Hrun Hdup') as (Hkeys & Hold & Hrecent).
  split; [exact Hreach|]. split; [reflexivity|]. split; [exact Hdup|].
  split; [|split].
  - etransitivity; [exact Hkeys|]. vm_compute. reflexivity.
  - apply Hold. intros Hin.
    assert (E : existsb (String.eqb (keyOf Sample.platform (Sample.request 1)))
                  (lastn (Z.to_nat CACHE_MAX_ENTRIES)
                     (JSMap.keys (CACHE Sample.emptyWorld)
                        ++ map insKey (handlerInsertions Sample.platform
                                                         Sample.manyCalls)))
                = false) by (vm_compute; reflexivity).
    rewrite <- Bool.not_true_iff_false in E. apply E.
    apply existsb_exists. eexists. split; [exact Hin | apply String.eqb_refl].
  - apply (Hrecent (Sample.request 201) [] 0 CACHE_TTL_MS).
    + unfold Sample.manyCalls. apply in_map_iff.
      exists (Sample.request 201). split; [reflexivity|].
      unfold Sample.manyRequests. apply in_map. apply in_seq. lia.
    + assert (E : existsb (String.eqb (keyOf Sample.platform (Sample.request 201)))
                    (lastn (Z.to_nat CACHE_MAX_ENTRIES)
                       (JSMap.keys (CACHE Sample.emptyWorld)
                          ++ map insKey (handlerInsertions Sample.platform
                                                           Sample.manyCalls)))
                  = true) by (vm_compute; reflexivity).
      apply existsb_exists in E as (x & Hx & Ex).
      apply String.eqb_eq in Ex. now subst x.
    + vm_compute. discriminate.
Defined.

(** The guard [if (oldestKey)] of [setCache] reads the empty string as no
    key. The handler never stores under the empty string; on a map that
    held it as its oldest key a call at capacity would evict nothing. *)
Example setCache_guard_skips_the_empty_key :
  JSMap.size (insertAll (Sample.insertKeys Sample.emptyKeyFirst) []) = 201 /\
  fst (getCache "" 0 (insertAll (Sample.insertKeys Sample.emptyKeyFirst) []))
  = Some [].
Proof. split; vm_compute; reflexivity. Qed.

(** ** The extractor *)

Module DomFacts.
Import Dom.

(** Induction on a node with the hypothesis for every child. *)
Lemma node_nested_ind (P : node -> Prop) :
  (forall d, P (Text d)) ->
  (forall d, P (Comment d)) ->
  (forall t attribs cs, Forall P cs -> P (Element t attribs cs)) ->
  forall n, P n.
Proof.
  intros HT HC HE. fix IH 1. intros [d|d|t attribs cs].
  - apply HT.
  - apply HC.
  - apply HE. induction cs as [|c cs IHcs]; constructor; [apply IH | apply IHcs].
Qed.

Lemma descendants_trans a : forall b c,
  In b (descendants a) -> In c (descendants b) -> In c (descendants a).
Proof.
  induction a as [d|d|t attribs cs IH] using node_nested_ind; intros b c Hb Hc;
    try (simpl in Hb; contradiction).
  simpl in *. apply in_flat_map in Hb as (x & Hx & Hbx).
  apply in_flat_map. exists x. split; [assumption|].
  rewrite Forall_forall in IH.
  destruct Hbx as [<-|Hbx]; [now right|].
  right. now apply (IH x Hx b c).
Qed.

Lemma nodes_descendants doc n m :
  In n (nodes doc) -> In m (descendants n) -> In m (nodes doc).
Proof.
  unfold nodes. intros Hn Hm.
  apply in_flat_map in Hn as (x & Hx & Hnx).
  apply in_flat_map. exists x. split; [assumption|].
  destruct Hnx as [<-|Hnx]; [now right|].
  right. now apply (descendants_trans x n m).
Qed.

Lemma rowsOf_sub n : forall inTable inBody r,
  In r (rowsOf inTable inBody n) -> r = n \/ In r (descendants n).
Proof.
  induction n as [d|d|t attribs cs IH] using node_nested_ind;
    intros inTable inBody r Hr; try (simpl in Hr; contradiction).
  simpl in Hr. apply in_app_or in Hr. destruct Hr as [Hr|Hr].
  - destruct (String.eqb t "tr" && inBody); [|destruct Hr].
    destruct Hr as [<-|[]]. now left.
  - right. simpl. apply in_flat_map in Hr as (x & Hx & Hrx).
    apply in_flat_map. exists x. split; [assumption|].
    rewrite Forall_forall in IH.
    destruct (IH x Hx _ _ _ Hrx) as [->|Hd]; [now left | now right].
Qed.

Lemma rows_in_nodes doc r : In r (select_table_tbody_tr doc) -> In r (nodes doc).
Proof.
  unfold select_table_tbody_tr, nodes. intros Hr.
  apply in_flat_map in Hr as (x & Hx & Hrx).
  apply in_flat_map. exists x. split; [assumption|].
  destruct (rowsOf_sub x _ _ _ Hrx) as [->|Hd]; [now left | now right].
Qed.

Lemma find_in tag n m :
  In m (find tag n) -> In m (descendants n) /\ isElement tag m = true.
Proof. unfold find. apply filter_In. Qed.

Lemma depth_children cs c :
  In c cs -> (depth c <= fold_right (fun c d => Nat.max (depth c) d) 0 cs)%nat.
Proof.
  induction cs as [|x r IH]; intros H; [destruct H|].
  cbn [fold_right]. destruct H as [->|H]; [lia|]. specialize (IH H). lia.
Qed.

(** What lies below a node nests less deep than the node. *)
Lemma depth_descendants n : forall m,
  In m (descendants n) -> (depth m < depth n)%nat.
Proof.
  induction n as [d|d|t attribs cs IH] using node_nested_ind; intros m Hm;
    [destruct Hm | destruct Hm |].
  cbn [descendants] in Hm. apply in_flat_map in Hm as (c & Hc & Hm).
  cbn [depth]. pose proof (depth_children cs c Hc) as Hle.
  destruct Hm as [->|Hm]; [lia|].
  rewrite Forall_forall in IH. specialize (IH c Hc m Hm). lia.
Qed.

End DomFacts.

Section ExtractorFacts.

Variable P : Platform.


Lemma nonempty_truthy s : s <> "" -> JSString.truthy s = true.
Proof. destruct s; [congruence | reflexivity]. Qed.

(** *** [.text()] *)

Lemma text_fits s : Forall (fits P) s -> text P s = Return (Dom.text s).
Proof.
  intros H. unfold text.
  assert (E : forallb (fun n => (Dom.depth n <=? stackDepth P)%nat) s = true).
  { apply forallb_forall. intros n Hn. apply Nat.leb_le.
    rewrite Forall_forall in H. now apply H. }
  now rewrite E.
Qed.

Lemma text_Return s t : text P s = Return t -> t = Dom.text s.
Proof.
  unfold text. destruct (forallb _ s); [|discriminate].
  intros H; now inversion H.
Qed.


(** *** The status loop *)

Lemma findStatus_Return tds o :
  findStatus P tds = Return o ->
  match o with
  | Some s =>
      exists before td after,
        tds = (before ++ td :: after)%list /\
        s = JSString.trim (Dom.text [td]) /\
        statusPattern s = true /\
        Forall notStatus before
  | None => Forall notStatus tds
  end.
Proof.
  revert o. induction tds as [|td r IH]; intros o; cbn [findStatus].
  - intros H; inversion H. constructor.
  - destruct (text P [td]) as [t|e] eqn:Et; cbn [bindC]; [|discriminate].
    apply text_Return in Et. subst t.
    destruct (statusPattern (JSString.trim (Dom.text [td]))) eqn:E.
    + intros H; inversion H. exists [], td, r. repeat split; auto.
    + intros H. specialize (IH o H). destruct o as [s|].
      * destruct IH as (before & td' & after & -> & Hs & Hm & Hb).
        exists (td :: before), td', after. repeat split; auto.
      * constructor; assumption.
Qed.


Lemma findStatus_first before td after :
  Forall (fits P) before -> fits P td ->
  Forall notStatus before ->
  statusPattern (JSString.trim (Dom.text [td])) = true ->
  findStatus P (before ++ td :: after)
  = Return (Some (JSString.trim (Dom.text [td]))).
Proof.
  intros Hfit Hfd Hnot Hm.
  induction before as [|b r IH]; cbn [app findStatus].
  - rewrite text_fits by (constructor; [exact Hfd | constructor]).
    cbn [bindC]. now rewrite Hm.
  - inversion Hfit; subst. inversion Hnot; subst.
    rewrite text_fits by (constructor; [assumption | constructor]).
    cbn [bindC]. unfold notStatus in *.
    match goal with H : statusPattern _ = false |- _ => rewrite H end.
    now apply IH.
Qed.

(** *** The loops *)



Lemma each_appends {A R : Type} (cb : list R -> A -> Completion (list R))
      (Q : R -> Prop) (l : list A) :
  (forall s x s', In x l -> cb s x = Return s' ->
                  s' = s \/ exists r, s' = (s ++ [r])%list /\ Q r) ->
  forall s s', each cb s l = Return s' ->
    exists added, s' = (s ++ added)%list /\ Forall Q added /\
                  (List.length added <= List.length l)%nat.
Proof.
  induction l as [|x rest IH]; intros Hcb s s' Hrun; simpl in Hrun.
  - inversion Hrun; subst. exists []. rewrite app_nil_r. repeat split; auto.
  - destruct (cb s x) as [s1|e] eqn:E; [|discriminate].
    destruct (IH (fun s0 y s0' Hy => Hcb s0 y s0' (or_intror Hy)) s1 s' Hrun)
      as (added & -> & HP & Hlen).
    destruct (Hcb s x s1 (or_introl eq_refl) E) as [-> | (r & -> & Hr)].
    + exists added. repeat split; auto. simpl. lia.
    + exists (r :: added). rewrite <- app_assoc. simpl.
      repeat split; [constructor; assumption | lia].
Qed.

(** *** The callback of the row loop *)

(** The record a row gives, when it gives one. *)
Lemma rowCallback_Return_inv baseUrl results tr rs :
  rowCallback P baseUrl results tr = Return rs ->
  rs = results \/
  exists td0 tds st,
    Dom.find "td" tr = td0 :: tds /\
    JSString.truthy (JSString.trim (Dom.text (Dom.first (Dom.find "a" td0)))) = true /\
    findStatus P (td0 :: tds) = Return st /\
    rs = (results ++
          [mkResult (JSString.trim (Dom.text (Dom.first (Dom.find "a" td0))))
             st
             match nth_error (td0 :: tds) 1 with
             | Some td1 => orUndefined (JSString.trim (Dom.text [td1]))
             | None => None
             end
             match Dom.attr "href" (Dom.first (Dom.find "a" td0)) with
             | Some h => if JSString.truthy h then new_URL P h baseUrl else None
             | None => None
             end])%list.
Proof.
  unfold rowCallback.
  destruct (Dom.find "td" tr) as [|td0 tds] eqn:Etd.
  { intros H; inversion H; now left. }
  destruct (text P (Dom.first (Dom.find "a" td0))) as [t|e] eqn:Et;
    cbn [bindC]; [|discriminate].
  apply text_Return in Et. subst t.
  destruct (JSString.truthy (JSString.trim (Dom.text (Dom.first (Dom.find "a" td0)))))
    eqn:Ename; cbn [negb]; [|intros H; inversion H; now left].
  intros H. right. exists td0, tds.
  assert (Hdoc : exists d,
             match nth_error (td0 :: tds) 1 with
             | Some td1 =>
                 t1 <~ text P [td1] ;; Return (orUndefined (JSString.trim t1))
             | None => Return None
             end = Return d /\
             d = match nth_error (td0 :: tds) 1 with
                 | Some td1 => orUndefined (JSString.trim (Dom.text [td1]))
                 | None => None
                 end).
  { destruct (nth_error (td0 :: tds) 1) as [td1|].
    - destruct (text P [td1]) as [t1|e] eqn:E1; cbn [bindC] in *; [|discriminate H].
      apply text_Return in E1. subst t1. eauto.
    - eauto. }
  destruct Hdoc as (d & Hd & Hdv). rewrite Hd in H. cbn [bindC] in H. rewrite <- Hdv.
  destruct (findStatus P (td0 :: tds)) as [st|e]; cbn [bindC] in H; [|discriminate H].
  exists st. split; [reflexivity|]. split; [exact Ename|]. split; [reflexivity|].
  destruct (Dom.attr "href" (Dom.first (Dom.find "a" td0))) as [h|].
  - destruct (JSString.truthy h).
    + destruct (new_URL P h baseUrl) as [u|]; cbn [bindC] in H; [|discriminate H].
      now inversion H.
    + cbn [bindC] in H. now inversion H.
  - cbn [bindC] in H. now inversion H.
Qed.



(** The record of a row whose cells fit the stack, whose name link
    resolves and whose status cell is the first that matches. *)
Lemma rowCallback_record baseUrl results tr td0 td1 rest a others h u
      before tdS after :
  fits P tr ->
  Dom.find "td" tr = td0 :: td1 :: rest ->
  Dom.find "a" td0 = a :: others ->
  JSString.trim (Dom.text [a]) <> "" ->
  Dom.getAttribute "href" a = Some h -> h <> "" ->
  new_URL P h baseUrl = Some u ->
  JSString.trim (Dom.text [td1]) <> "" ->
  td0 :: td1 :: rest = (before ++ tdS :: after)%list ->
  Forall notStatus before ->
  statusPattern (JSString.trim (Dom.text [tdS])) = true ->
  rowCallback P baseUrl results tr
  = Return (results ++
            [mkResult (JSString.trim (Dom.text [a]))
               (Some (JSString.trim (Dom.text [tdS])))
               (Some (JSString.trim (Dom.text [td1])))
               (Some u)])%list.
Proof.
  intros Hfit Etd Ea Hname Eh Hh Eu Hdoc Ecells Hnot Hm.
  assert (Hbelow : forall n, In n (Dom.descendants tr) -> fits P n).
  { intros n Hn. apply DomFacts.depth_descendants in Hn. unfold fits in *. lia. }
  assert (Hcells : forall n, In n (td0 :: td1 :: rest) -> fits P n).
  { intros n Hn. apply Hbelow. rewrite <- Etd in Hn.
    now apply DomFacts.find_in in Hn as [Hn _]. }
  assert (Hfa : fits P a).
  { apply Hbelow.
    assert (Ha : In a (Dom.find "a" td0)) by (rewrite Ea; now left).
    apply DomFacts.find_in in Ha as [Ha _].
    apply (DomFacts.descendants_trans tr td0 a); [|exact Ha].
    assert (H0 : In td0 (Dom.find "td" tr)) by (rewrite Etd; now left).
    now apply DomFacts.find_in in H0 as [H0 _]. }
  unfold rowCallback. rewrite Etd, Ea. cbn [Dom.first Dom.attr nth_error].
  rewrite text_fits by (constructor; [exact Hfa | constructor]). cbn [bindC].
  rewrite (nonempty_truthy Hname). cbn [negb].
  rewrite text_fits
    by (constructor; [apply Hcells; right; now left | constructor]).
  cbn [bindC].
  rewrite Ecells, findStatus_first; try assumption.
  - cbn [bindC]. rewrite Eh, (nonempty_truthy Hh), Eu. cbn [bindC].
    unfold orUndefined. now rewrite (nonempty_truthy Hdoc).
  - apply Forall_forall. intros n Hn. apply Hcells. rewrite Ecells.
    apply in_or_app. now left.
  - apply Hcells. rewrite Ecells. apply in_or_app. right. now left.
Qed.

(** The two ways a row is skipped. *)
Lemma rowCallback_no_cells baseUrl results tr :
  Dom.find "td" tr = [] -> rowCallback P baseUrl results tr = Return results.
Proof. intros Htd. unfold rowCallback. now rewrite Htd. Qed.

Lemma rowCallback_no_name baseUrl results tr td0 tds :
  Dom.find "td" tr = td0 :: tds ->
  Forall (fits P) (Dom.first (Dom.find "a" td0)) ->
  JSString.trim (Dom.text (Dom.first (Dom.find "a" td0))) = "" ->
  rowCallback P baseUrl results tr = Return results.
Proof.
  intros Htd Hfit Hname. unfold rowCallback.
  rewrite Htd, (text_fits Hfit). cbn [bindC]. now rewrite Hname.
Qed.

(** *** The callback of the fallback loop *)

Lemma anchorCallback_Return_inv baseUrl results a rs :
  anchorCallback P baseUrl results a = Return rs ->
  rs = results \/
  exists h u,
    Dom.getAttribute "href" a = Some h /\
    JSString.truthy (JSString.trim (Dom.text [a])) = true /\
    new_URL P h baseUrl = Some u /\
    rs = (results ++ [mkResult (JSString.trim (Dom.text [a])) None None (Some u)])%list.
Proof.
  unfold anchorCallback. cbn [Dom.attr].
  destruct (text P [a]) as [t|e] eqn:Et; cbn [bindC]; [|discriminate].
  apply text_Return in Et. subst t.
  destruct (Dom.getAttribute "href" a) as [h|] eqn:Eh;
    [|intros H; inversion H; now left].
  destruct (JSString.truthy (JSString.trim (Dom.text [a]))) eqn:Ename;
    cbn [andb]; [|intros H; inversion H; now left].
  destruct (JSString.truthy h); [|intros H; inversion H; now left].
  destruct (new_URL P h baseUrl) as [u0|] eqn:Eu; [|discriminate].
  intros H; inversion H. right. exists h, u0. auto.
Qed.



(** *** The extractor *)


End ExtractorFacts.




(** A link that does not resolve is harmless where no loop visits it: the
    row loop gives a record, so the fallback loop never reads the link
    below the table. *)
Example parse_stray_link :
  parseSunbiz Stray.platform Stray.html baseUrl = Return [Sample.tesla_record] /\
  unresolvableLink (new_URL Stray.platform)
                   (cheerio_load Stray.platform Stray.html) baseUrl.
Proof.
  split; [vm_compute; reflexivity|].
  exists (Sample.link "http://" "Help"), "http://".
  split; [vm_compute; tauto|].
  repeat split; try (vm_compute; reflexivity). discriminate.
Qed.

(** A cell that nests deeper than the stack allows: [.text()] throws while
    the document number is read, and the handler answers 500 with the
    message of the [RangeError]. *)
Example parse_deep_cell :
  parseSunbiz Deep.platform Deep.html baseUrl = Throw StackOverflow /\
  fst (GET Deep.platform (mkRequest (Some "tesla") None)
           (Sample.env (Sample.ok Deep.html)) Sample.emptyWorld)
  = json (ErrorBody "Unexpected error while searching Sunbiz." None
                    (Some "Maximum call stack size exceeded")) 500.
Proof. split; vm_compute; reflexivity. Qed.

(** C9 (as the code has it): when the only result row of the markup nests
    no deeper than the stack allows, the first link of its first cell has
    a text and an [href] that resolves, its second cell has a text, and
    the first of its cells whose trimmed text matches the status pattern
    holds the status text, the extractor returns exactly one record, with
    the trimmed link text as name, the trimmed second cell as document
    number, that status and the resolved address as url; so it does for
    the row of the example, "TESLA LLC", "P12000012345" and "ACTIVE", when
    no cell before the cell "ACTIVE" matches the pattern. A row without
    cells, and a row whose name link fits the stack and is empty after
    trimming, leave the results as they are. *)
Theorem one_row_yields_one_record_when_its_status_cell_matches_first :
  forall P html base results tr,
    (forall td0 td1 rest a others href u before tdS after nm doc st,
        Dom.select_table_tbody_tr (cheerio_load P html) = [tr] ->
        fits P tr ->
        Dom.find "td" tr = td0 :: td1 :: rest ->
        Dom.find "a" td0 = a :: others ->
        JSString.trim (Dom.text [a]) = nm -> nm <> "" ->
        Dom.getAttribute "href" a = Some href -> href <> "" ->
        new_URL P href base = Some u ->
        JSString.trim (Dom.text [td1]) = doc -> doc <> "" ->
        td0 :: td1 :: rest = (before ++ tdS :: after)%list ->
        Forall notStatus before ->
        JSString.trim (Dom.text [tdS]) = st -> statusPattern st = true ->
        parseSunbiz P html base
        = Return [mkResult nm (Some st) (Some doc) (Some u)]) /\
    (Dom.find "td" tr = [] ->
     rowCallback P base results tr = Return results) /\
    (forall td0 tds,
        Dom.find "td" tr = td0 :: tds ->
        Forall (fits P) (Dom.first (Dom.find "a" td0)) ->
        JSString.trim (Dom.text (Dom.first (Dom.find "a" td0))) = "" ->
        rowCallback P base results tr = Return results).
Proof.
  intros P html base results tr. split; [|split].
  - intros td0 td1 rest a others href u before tdS after nm doc st
           Hrows Hfit Etd Ea Hnm Hnm0 Eh Hh Eu Hdoc Hdoc0 Ecells Hnot Hst Hm.
    subst nm doc st.
    unfold parseSunbiz. rewrite Hrows. cbn [each].
    rewrite (@rowCallback_record P base [] tr td0 td1 rest a others href u
               before tdS after Hfit Etd Ea Hnm0 Eh Hh Eu Hdoc0 Ecells Hnot Hm).
    reflexivity.
  - apply rowCallback_no_cells.
  - intros td0 tds. apply rowCallback_no_name.
Qed.

Lemma one_row_yields_one_record_when_its_status_cell_matches_first_witness :
  parseSunbiz Sample.platform Sample.tesla_html baseUrl
  = Return [mkResult "TESLA LLC" (Some "ACTIVE") (Some "P12000012345")
              (Some "https://search.sunbiz.org/Inquiry/CorporationSearch/SearchResultDetail?inquirytype=...")] /\
  rowCallback Sample.platform baseUrl [Sample.tesla_record]
    (Dom.Element "tr" [] [])
  = Return [Sample.tesla_record].
Proof.
  split.
  - apply (proj1 (@one_row_yields_one_record_when_its_status_cell_matches_first
                    Sample.platform Sample.tesla_html baseUrl [] Sample.tesla_row)
             (Sample.cell [Sample.link Sample.tesla_href "TESLA LLC"])
             (Sample.cell [Dom.Text "P12000012345"])
             [Sample.cell [Dom.Text "ACTIVE"]]
             (Sample.link Sample.tesla_href "TESLA LLC") []
             Sample.tesla_href Sample.tesla_url
             [Sample.cell [Sample.link Sample.tesla_href "TESLA LLC"];
              Sample.cell [Dom.Text "P12000012345"]]
             (Sample.cell [Dom.Text "ACTIVE"]) []);
      try (vm_compute; reflexivity); try discriminate.
    + apply Nat.leb_le. vm_compute. reflexivity.
    + repeat constructor; vm_compute; reflexivity.
  - apply (proj1 (proj2 (@one_row_yields_one_record_when_its_status_cell_matches_first
                           Sample.platform Sample.tesla_html baseUrl
                           [Sample.tesla_record] (Dom.Element "tr" [] [])))).
    vm_compute. reflexivity.
Defined.

(** C9, the claim as stated fails: the only result row of this page has the
    link "TESLA LLC" to the detail address in its first cell, "P12000012345"
    in its second cell and a cell "ACTIVE", and before that a cell
    "Status". The loop over the cells stops at the first text that matches
    the pattern, so the record has the status "Status". *)
Lemma earlier_matching_cell_becomes_the_status :
  Dom.select_table_tbody_tr (cheerio_load Labelled.platform Labelled.html)
  = [Labelled.row] /\
  map (fun td => Dom.text [td]) (Dom.find "td" Labelled.row)
  = ["TESLA LLC"; "P12000012345"; "Status"; "ACTIVE"] /\
  map (fun td => (Dom.text (Dom.first (Dom.find "a" td)),
                  Dom.attr "href" (Dom.first (Dom.find "a" td))))
      (firstn 1 (Dom.find "td" Labelled.row))
  = [("TESLA LLC", Some Sample.tesla_href)] /\
  parseSunbiz Labelled.platform Labelled.html baseUrl
  = Return [mkResult "TESLA LLC" (Some "Status") (Some "P12000012345")
              (Some "https://search.sunbiz.org/Inquiry/CorporationSearch/SearchResultDetail?inquirytype=...")].
Proof. repeat split; vm_compute; reflexivity. Qed.

(** ** The limit *)

Lemma Math_clamp_range x :
  let y := JSNumber.Math_max (JSNumber.ofZ 1) (JSNumber.Math_min (JSNumber.ofZ 10) x) in
  y = JSNumber.NaN \/
  (JSNumber.leb (JSNumber.ofZ 1) y = true /\ JSNumber.leb y (JSNumber.ofZ 10) = true).
Proof.
  destruct x as [|[|]|m e]; [left; reflexivity | right; split; reflexivity
                            | right; split; reflexivity |].
  right. cbv zeta.
  unfold JSNumber.Math_min, JSNumber.Math_max, JSNumber.ofZ. cbn [JSNumber.isNaN orb].
  destruct (JSNumber.leb (JSNumber.Finite 10 0) (JSNumber.Finite m e)) eqn:E1;
    cbn [JSNumber.isNaN orb].
  - split; reflexivity.
  - destruct (JSNumber.leb (JSNumber.Finite 1 0) (JSNumber.Finite m e)) eqn:E2.
    + split; [exact E2|].
      unfold JSNumber.leb in *. rewrite Z.min_comm.
      apply Z.leb_gt in E1. apply Z.leb_le. lia.
    + split; reflexivity.
Qed.

(** The limit is [NaN] or lies between 1 and 10. *)
Lemma effectiveLimit_range raw :
  effectiveLimit raw = JSNumber.NaN \/
  (JSNumber.leb (JSNumber.ofZ 1) (effectiveLimit raw) = true /\
   JSNumber.leb (effectiveLimit raw) (JSNumber.ofZ 10) = true).
Proof. unfold effectiveLimit. apply Math_clamp_range. Qed.

Example effectiveLimit_examples :
  map effectiveLimit [None; Some ""; Some "0"; Some "15"; Some "7"; Some "-3"; Some " 4 "]
  = map JSNumber.ofZ [7; 7; 1; 10; 7; 1; 4].
Proof. vm_compute. reflexivity. Qed.

(** C2, on the code: the limit "abc" converts to [NaN], which passes
    through [Math.min] and [Math.max]; the effective limit is [NaN], neither
    7 nor an integer between 1 and 10, the cache key ends in "NaN" and the
    answer holds no record although the extractor found one. A limit "2.5"
    stays 2.5. The other inputs of the claim resolve as it says: no limit
    and an empty limit to 7, "0" to 1, "15" to 10. *)
Theorem unparsable_limit_is_not_clamped :
  effectiveLimit (Some "abc") = JSNumber.NaN /\
  ~ JSNumber.integerIn 1 10 (effectiveLimit (Some "abc")) /\
  effectiveLimit (Some "2.5") = JSNumber.Finite 25 (-1) /\
  effectiveLimit None = JSNumber.ofZ 7 /\
  effectiveLimit (Some "0") = JSNumber.ofZ 1 /\
  effectiveLimit (Some "15") = JSNumber.ofZ 10 /\
  keyOf Sample.platform (mkRequest (Some "tesla") (Some "abc")) = "tesla:NaN" /\
  Sample.GET (mkRequest (Some "tesla") (Some "abc"))
    (Sample.env (Sample.ok Sample.tesla_html)) Sample.emptyWorld
  = (json (ResultsBody [] None) 200,
     mkWorld [("tesla:NaN", mkEntry [] 301001)]
       [EvGetCache "tesla:NaN";
        EvFetch "https://search.sunbiz.org/Inquiry/CorporationSearch/SearchResults?inquiryType=EntityName&searchTerm=tesla";
        EvSetCache "tesla:NaN"]).
Proof.
  split; [vm_compute; reflexivity|].
  split; [intros (z & Hz & _); vm_compute in Hz; discriminate|].
  repeat split; vm_compute; reflexivity.
Qed.

(** ** Strings: trimming and lower-casing *)

Module JSStringFacts.
Import JSString.

Lemma lowerChar_whitespace c : isWhiteSpace (lowerChar c) = isWhiteSpace c.
Proof.
  destruct c as [b0 b1 b2 b3 b4 b5 b6 b7];
    destruct b0, b1, b2, b3, b4, b5, b6, b7; reflexivity.
Qed.

Lemma lowerChar_idem c : lowerChar (lowerChar c) = lowerChar c.
Proof.
  destruct c as [b0 b1 b2 b3 b4 b5 b6 b7];
    destruct b0, b1, b2, b3, b4, b5, b6, b7; reflexivity.
Qed.

Lemma dropWhile_head p l c t : dropWhile p l = c :: t -> p c = false.
Proof.
  induction l as [|x r IH]; simpl; [discriminate|].
  destruct (p x) eqn:E; [exact IH|].
  intros H. inversion H; subst. exact E.
Qed.

Lemma dropWhile_idem p l : dropWhile p (dropWhile p l) = dropWhile p l.
Proof.
  induction l as [|x r IH]; simpl; [reflexivity|].
  destruct (p x) eqn:E; [exact IH|]. simpl. now rewrite E.
Qed.

Lemma dropWhile_snoc p a c :
  p c = false -> dropWhile p (a ++ [c]) = (dropWhile p a ++ [c])%list.
Proof.
  intros Hc. induction a as [|x r IH]; simpl; [now rewrite Hc|].
  destruct (p x); [exact IH | reflexivity].
Qed.

Lemma dropWhile_map p f l :
  (forall c, p (f c) = p c) -> dropWhile p (map f l) = map f (dropWhile p l).
Proof.
  intros Hf. induction l as [|x r IH]; simpl; [reflexivity|].
  rewrite Hf. destruct (p x); [exact IH | reflexivity].
Qed.

(** Trimming a list of code units at both ends. *)
Lemma trim_chars_idem l :
  trimEnd (trimStart (trimEnd (trimStart l))) = trimEnd (trimStart l).
Proof.
  unfold trimEnd, trimStart.
  destruct (dropWhile isWhiteSpace l) as [|c t] eqn:E; [reflexivity|].
  assert (Hc : isWhiteSpace c = false) by (eapply dropWhile_head; exact E).
  assert (H1 : dropWhile isWhiteSpace (rev (c :: t))
               = (dropWhile isWhiteSpace (rev t) ++ [c])%list).
  { simpl. apply dropWhile_snoc. exact Hc. }
  rewrite H1. set (u := dropWhile isWhiteSpace (rev t)).
  rewrite rev_app_distr. simpl. rewrite Hc. simpl. rewrite rev_involutive.
  rewrite dropWhile_snoc by exact Hc.
  unfold u. rewrite dropWhile_idem, rev_app_distr. reflexivity.
Qed.

Lemma trim_chars_map f l :
  (forall c, isWhiteSpace (f c) = isWhiteSpace c) ->
  trimEnd (trimStart (map f l)) = map f (trimEnd (trimStart l)).
Proof.
  intros Hf. unfold trimEnd, trimStart.
  rewrite dropWhile_map by exact Hf.
  rewrite <- map_rev. rewrite dropWhile_map by exact Hf.
  now rewrite map_rev.
Qed.

Lemma trim_idem s : trim (trim s) = trim s.
Proof.
  unfold trim. rewrite list_ascii_of_string_of_list_ascii, trim_chars_idem.
  reflexivity.
Qed.

Lemma toLowerCaseLatin1_idem s : toLowerCaseLatin1 (toLowerCaseLatin1 s) = toLowerCaseLatin1 s.
Proof.
  unfold toLowerCaseLatin1. rewrite list_ascii_of_string_of_list_ascii, map_map.
  f_equal. apply map_ext. apply lowerChar_idem.
Qed.

Lemma trim_toLowerCaseLatin1 s : trim (toLowerCaseLatin1 s) = toLowerCaseLatin1 (trim s).
Proof.
  unfold trim, toLowerCaseLatin1. rewrite !list_ascii_of_string_of_list_ascii.
  rewrite trim_chars_map by exact lowerChar_whitespace. reflexivity.
Qed.

Lemma truthy_self s : (if truthy s then s else "") = s.
Proof. now destruct s. Qed.

End JSStringFacts.

(** X1: where lower-casing is idempotent and leaves a text without white
    space at its ends without white space at its ends, normalising a query
    twice changes nothing more: the normal form is already trimmed and
    lower-cased, so a request for the normal form of a query has the cache
    key of the request for the query itself. *)
Theorem normalizeQuery_is_a_normal_form :
  forall P q limit,
    (forall s, toLowerCase P (toLowerCase P s) = toLowerCase P s) ->
    (forall s, JSString.trim s = s ->
               JSString.trim (toLowerCase P s) = toLowerCase P s) ->
    normalizeQuery P (normalizeQuery P q) = normalizeQuery P q /\
    JSString.trim (normalizeQuery P q) = normalizeQuery P q /\
    toLowerCase P (normalizeQuery P q) = normalizeQuery P q /\
    keyOf P (mkRequest (Some (normalizeQuery P q)) limit)
    = keyOf P (mkRequest (Some q) limit).
Proof.
  intros P q limit Hidem Htrimmed.
  assert (Htrim : JSString.trim (normalizeQuery P q) = normalizeQuery P q).
  { unfold normalizeQuery. apply Htrimmed. apply JSStringFacts.trim_idem. }
  assert (Hnorm : normalizeQuery P (normalizeQuery P q) = normalizeQuery P q).
  { unfold normalizeQuery at 1. rewrite Htrim. unfold normalizeQuery.
    apply Hidem. }
  repeat split; try assumption.
  - unfold normalizeQuery. apply Hidem.
  - unfold keyOf, queryOf. simpl. rewrite !JSStringFacts.truthy_self.
    now rewrite Hnorm.
Qed.

Lemma normalizeQuery_is_a_normal_form_witness :
  normalizeQuery Sample.platform (normalizeQuery Sample.platform "  Tesla LLC ")
  = "tesla llc" /\
  keyOf Sample.platform (mkRequest (Some "tesla llc") (Some "7"))
  = keyOf Sample.platform (mkRequest (Some "  Tesla LLC ") (Some "7")).
Proof.
  destruct (@normalizeQuery_is_a_normal_form Sample.platform "  Tesla LLC "
              (Some "7") JSStringFacts.toLowerCaseLatin1_idem
              (fun s H => eq_trans (JSStringFacts.trim_toLowerCaseLatin1 s)
                                   (f_equal JSString.toLowerCaseLatin1 H)))
    as (H1 & _ & _ & H4).
  split; [exact H1 | exact H4].
Defined.

(** ** The extractor: what the records hold *)

Section RecordFacts.

Variable P : Platform.

Lemma trimmed_name_wellNamed s :
  JSString.truthy (JSString.trim s) = true ->
  JSString.trim s <> "" /\ JSString.trim (JSString.trim s) = JSString.trim s.
Proof.
  intros H. split; [|apply JSStringFacts.trim_idem].
  destruct (JSString.trim s); [discriminate H | discriminate].
Qed.

Lemma rowCallback_Return doc baseUrl results tr rs :
  In tr (Dom.nodes doc) ->
  rowCallback P baseUrl results tr = Return rs ->
  rs = results \/
  exists r, rs = (results ++ [r])%list /\ wellNamed r /\
            urlFromDocument (new_URL P) doc baseUrl r.
Proof.
  intros Htr H.
  destruct (rowCallback_Return_inv P baseUrl results tr H)
    as [->|(td0 & tds & st & Etd & Ename & _ & ->)]; [now left|].
  right. eexists. split; [reflexivity|].
  split; [exact (trimmed_name_wellNamed _ Ename)|].
  intros u Hu. cbn [url] in Hu.
  destruct (Dom.find "a" td0) as [|a rest] eqn:Ea; [discriminate Hu|].
  cbn [Dom.first Dom.attr] in Hu.
  destruct (Dom.getAttribute "href" a) as [h|] eqn:Eh; [|discriminate Hu].
  destruct (JSString.truthy h); [|discriminate Hu].
  exists a, h.
  assert (Htd0 : In td0 (Dom.find "td" tr)) by (rewrite Etd; now left).
  assert (Ha : In a (Dom.find "a" td0)) by (rewrite Ea; now left).
  apply DomFacts.find_in in Htd0 as [Htd0 _].
  apply DomFacts.find_in in Ha as [Ha Hel].
  repeat split; try assumption.
  apply (DomFacts.nodes_descendants doc tr a Htr).
  now apply (DomFacts.descendants_trans tr td0 a).
Qed.

Lemma anchorCallback_Return doc baseUrl results a rs :
  In a (Dom.select_detail_anchors doc) ->
  anchorCallback P baseUrl results a = Return rs ->
  rs = results \/
  exists r, rs = (results ++ [r])%list /\
            wellNamed r /\ linkOnly r /\ urlFromDocument (new_URL P) doc baseUrl r.
Proof.
  intros Ha H.
  destruct (anchorCallback_Return_inv P baseUrl results a H)
    as [->|(h & u0 & Eh & Ename & Eu & ->)]; [now left|].
  right. eexists. split; [reflexivity|].
  split; [exact (trimmed_name_wellNamed _ Ename)|].
  split; [split; [reflexivity | split; [reflexivity | eexists; reflexivity]]|].
  intros u Hu. simpl in Hu. inversion Hu; subst u.
  apply filter_In in Ha as [Hin Hdet].
  unfold Dom.isDetailAnchor in Hdet. apply andb_prop in Hdet as [Hel _].
  exists a, h. repeat split; assumption.
Qed.

(** The records of a run: those of the row loop when it produced any,
    otherwise those of the fallback loop. *)
Lemma parseSunbiz_records html baseUrl rs :
  parseSunbiz P html baseUrl = Return rs ->
  let doc := cheerio_load P html in
  (rs <> [] /\
   each (rowCallback P baseUrl) [] (Dom.select_table_tbody_tr doc) = Return rs /\
   Forall (fun r => wellNamed r /\ urlFromDocument (new_URL P) doc baseUrl r) rs /\
   (List.length rs <= List.length (Dom.select_table_tbody_tr doc))%nat) \/
  (each (rowCallback P baseUrl) [] (Dom.select_table_tbody_tr doc) = Return [] /\
   each (anchorCallback P baseUrl) [] (Dom.select_detail_anchors doc) = Return rs /\
   Forall (fun r => wellNamed r /\ linkOnly r /\ urlFromDocument (new_URL P) doc baseUrl r) rs /\
   (List.length rs <= List.length (Dom.select_detail_anchors doc))%nat).
Proof.
  unfold parseSunbiz. intros H. cbv zeta.
  destruct (each (rowCallback P baseUrl) [] (Dom.select_table_tbody_tr (cheerio_load P html)))
    as [primary|e] eqn:Erows; [|discriminate].
  assert (Hrow : forall s x s',
             In x (Dom.select_table_tbody_tr (cheerio_load P html)) ->
             rowCallback P baseUrl s x = Return s' ->
             s' = s \/
             exists r, s' = (s ++ [r])%list /\
                       (wellNamed r /\
                        urlFromDocument (new_URL P) (cheerio_load P html) baseUrl r)).
  { intros s x s' Hx Hr.
    apply (rowCallback_Return (cheerio_load P html) baseUrl s x
             (DomFacts.rows_in_nodes _ _ Hx) Hr). }
  destruct (@each_appends _ _ _ _ _ Hrow [] primary Erows) as (added & Hadd & HP & Hlen).
  simpl in Hadd. subst added.
  destruct primary as [|r0 rest].
  - right. simpl in H.
    assert (Hlink : forall s x s',
               In x (Dom.select_detail_anchors (cheerio_load P html)) ->
               anchorCallback P baseUrl s x = Return s' ->
               s' = s \/
               exists r, s' = (s ++ [r])%list /\
                         (wellNamed r /\ linkOnly r /\
                          urlFromDocument (new_URL P) (cheerio_load P html) baseUrl r)).
    { intros s x s' Hx Hr.
      apply (anchorCallback_Return (cheerio_load P html) baseUrl s x Hx Hr). }
    destruct (@each_appends _ _ _ _ _ Hlink [] rs H) as (added & Hadd & HP2 & Hlen2).
    simpl in Hadd. subst added. auto.
  - left. simpl in H. inversion H; subst rs.
    repeat split; try assumption. discriminate.
Qed.

End RecordFacts.

Lemma parse_two_rows_run :
  parseSunbiz Sample.platform Sample.two_rows_html baseUrl
  = Return [Sample.tesla_record; Sample.motors_record].
Proof. vm_compute. reflexivity. Qed.

Lemma parse_links_only_run :
  parseSunbiz LinksOnly.platform LinksOnly.html baseUrl
  = Return [LinksOnly.record].
Proof. vm_compute. reflexivity. Qed.

(** X2: every record the extractor returns has a name that is not empty
    and has no white space around it, whichever loop produced it. *)
Theorem extracted_names_are_nonempty_and_trimmed :
  forall P html base rs,
    parseSunbiz P html base = Return rs ->
    Forall wellNamed rs.
Proof.
  intros P html base rs H.
  destruct (parseSunbiz_records P html base H) as [(_ & _ & HP & _) | (_ & _ & HP & _)];
    eapply Forall_impl; try exact HP; simpl; tauto.
Qed.

Lemma extracted_names_are_nonempty_and_trimmed_witness :
  Forall wellNamed [Sample.tesla_record; Sample.motors_record].
Proof.
  exact (@extracted_names_are_nonempty_and_trimmed
           Sample.platform Sample.two_rows_html baseUrl
           [Sample.tesla_record; Sample.motors_record] parse_two_rows_run).
Defined.

(** X3: every url of a returned record is what the URL constructor made of
    the [href] of some link of the parsed document: the extractor never
    builds an address of its own. *)
Theorem extracted_urls_come_from_links :
  forall P html base rs,
    parseSunbiz P html base = Return rs ->
    Forall (urlFromDocument (new_URL P) (cheerio_load P html) base) rs.
Proof.
  intros P html base rs H.
  destruct (parseSunbiz_records P html base H) as [(_ & _ & HP & _) | (_ & _ & HP & _)];
    eapply Forall_impl; try exact HP; simpl; tauto.
Qed.

Lemma extracted_urls_come_from_links_witness :
  Forall (urlFromDocument Sample.new_URL
            (Sample.cheerio_load Sample.two_rows_html) baseUrl)
         [Sample.tesla_record; Sample.motors_record].
Proof.
  exact (@extracted_urls_come_from_links
           Sample.platform Sample.two_rows_html baseUrl
           [Sample.tesla_record; Sample.motors_record] parse_two_rows_run).
Defined.

(** X4: the extractor returns at most one record per result row, or, when
    the rows gave none, at most one per detail link. *)
Theorem extracted_records_are_bounded_by_rows_or_links :
  forall P html base rs,
    parseSunbiz P html base = Return rs ->
    (List.length rs
     <= Nat.max (List.length (Dom.select_table_tbody_tr (cheerio_load P html)))
                (List.length (Dom.select_detail_anchors (cheerio_load P html))))%nat.
Proof.
  intros P html base rs H.
  destruct (parseSunbiz_records P html base H) as [(_ & _ & _ & Hl) | (_ & _ & _ & Hl)];
    cbv zeta in Hl; lia.
Qed.

Lemma extracted_records_are_bounded_by_rows_or_links_witness :
  (List.length [LinksOnly.record]
   <= Nat.max (List.length (Dom.select_table_tbody_tr (LinksOnly.cheerio_load LinksOnly.html)))
              (List.length (Dom.select_detail_anchors (LinksOnly.cheerio_load LinksOnly.html))))%nat.
Proof.
  exact (@extracted_records_are_bounded_by_rows_or_links
           LinksOnly.platform LinksOnly.html baseUrl
           [LinksOnly.record] parse_links_only_run).
Defined.

(** X5: the two loops never mix. The records returned are those of the row
    loop, when it produced at least one; otherwise the row loop produced
    none and the records are those of the fallback loop over the detail
    links, each of which holds a name and a url and neither status nor
    document number. *)
Theorem row_records_and_link_records_never_mix :
  forall P html base rs,
    parseSunbiz P html base = Return rs ->
    (rs <> [] /\
     each (rowCallback P base) [] (Dom.select_table_tbody_tr (cheerio_load P html))
     = Return rs) \/
    (each (rowCallback P base) [] (Dom.select_table_tbody_tr (cheerio_load P html))
     = Return [] /\
     each (anchorCallback P base) [] (Dom.select_detail_anchors (cheerio_load P html))
     = Return rs /\
     Forall linkOnly rs).
Proof.
  intros P html base rs H.
  destruct (parseSunbiz_records P html base H)
    as [(Hne & Hrun & _) | (Hrun & Hlinks & HP & _)].
  - left. now split.
  - right. split; [exact Hrun|]. split; [exact Hlinks|].
    eapply Forall_impl; try exact HP; simpl; tauto.
Qed.

Lemma row_records_and_link_records_never_mix_witness :
  parseSunbiz LinksOnly.platform LinksOnly.html baseUrl
  = Return [LinksOnly.record] /\
  each (anchorCallback LinksOnly.platform baseUrl) []
       (Dom.select_detail_anchors (cheerio_load LinksOnly.platform LinksOnly.html))
  = Return [LinksOnly.record] /\
  Forall linkOnly [LinksOnly.record].
Proof.
  split; [exact parse_links_only_run|].
  destruct (@row_records_and_link_records_never_mix
              LinksOnly.platform LinksOnly.html baseUrl
              [LinksOnly.record] parse_links_only_run)
    as [(_ & Hrun) | (_ & Hlinks & HP)].
  - vm_compute in Hrun. discriminate Hrun.
  - split; [exact Hlinks | exact HP].
Defined.

(** ** Slices by the effective limit *)

Lemma firstn_min_length {A : Type} (n : nat) (l : list A) :
  firstn (Nat.min n (List.length l)) l = firstn n l.
Proof.
  destruct (Nat.le_ge_cases n (List.length l)) as [H|H].
  - now rewrite Nat.min_l.
  - rewrite Nat.min_r by assumption.
    now rewrite firstn_all, firstn_all2.
Qed.

Lemma slice0_is_firstn {A : Type} (l : list A) (y : JSNumber.t) :
  exists n, JSNumber.slice0 l y = firstn n l.
Proof.
  destruct y as [|[|]|m e]; simpl.
  - now exists 0%nat.
  - now exists 0%nat.
  - exists (List.length l). now rewrite firstn_all.
  - eexists. reflexivity.
Qed.

Lemma truncate_clamped m e :
  JSNumber.leb (JSNumber.ofZ 1) (JSNumber.Finite m e) = true ->
  JSNumber.leb (JSNumber.Finite m e) (JSNumber.ofZ 10) = true ->
  1 <= JSNumber.truncate m e <= 10.
Proof.
  unfold JSNumber.leb, JSNumber.ofZ, JSNumber.truncate. intros H1 H10.
  apply Z.leb_le in H1. apply Z.leb_le in H10.
  destruct (Z.leb_spec 0 e) as [He|He].
  - rewrite Z.min_l in H1 by assumption. rewrite Z.min_r in H10 by assumption.
    rewrite !Z.sub_0_r in *. change (10 ^ 0) with 1 in *. lia.
  - rewrite Z.min_r in H1 by lia. rewrite Z.min_l in H10 by lia.
    rewrite Z.sub_diag in *. change (10 ^ 0) with 1 in *.
    rewrite Z.sub_0_l in *.
    assert (Hd : 0 < 10 ^ (- e)) by (apply Z.pow_pos_nonneg; lia).
    rewrite Z.quot_div_nonneg by lia.
    split.
    + apply Z.div_le_lower_bound; lia.
    + apply Z.div_le_upper_bound; lia.
Qed.

(** Slicing by the effective limit keeps a prefix of at most ten. *)
Lemma effectiveLimit_slice raw :
  exists n, (n <= 10)%nat /\
            forall (A : Type) (l : list A),
              JSNumber.slice0 l (effectiveLimit raw) = firstn n l.
Proof.
  destruct (effectiveLimit_range raw) as [-> | [H1 H10]].
  - exists 0%nat. split; [lia | reflexivity].
  - destruct (effectiveLimit raw) as [|[|]|m e]; try discriminate.
    pose proof (truncate_clamped m e H1 H10) as Ht.
    exists (Z.to_nat (JSNumber.truncate m e)). split; [lia|].
    intros A l. unfold JSNumber.slice0.
    destruct (Z.ltb_spec (JSNumber.truncate m e) 0) as [Hneg|_]; [lia|].
    rewrite Z2Nat.inj_min, Nat2Z.id. apply firstn_min_length.
Qed.

Lemma effectiveLimit_slice_length {A : Type} raw (l : list A) :
  (List.length (JSNumber.slice0 l (effectiveLimit raw)) <= 10)%nat.
Proof.
  destruct (effectiveLimit_slice raw) as (n & Hn & ->).
  pose proof (firstn_le_length n l). lia.
Qed.

Lemma effectiveLimit_slice_idem {A : Type} raw (l : list A) :
  JSNumber.slice0 (JSNumber.slice0 l (effectiveLimit raw)) (effectiveLimit raw)
  = JSNumber.slice0 l (effectiveLimit raw).
Proof.
  destruct (effectiveLimit_slice raw) as (n & Hn & E).
  rewrite !E, firstn_firstn. now rewrite Nat.min_id.
Qed.

(** ** The handler: every way a request can end *)

Lemma getCache_None_inv key now c C1 :
  getCache key now c = (None, C1) ->
  JSMap.get key C1 = None /\ (C1 = c \/ C1 = JSMap.delete key c).
Proof.
  unfold getCache. destruct (JSMap.get key c) as [hit|] eqn:Hg.
  - destruct (now >? expiresAt hit); intros H; inversion H; subst.
    split; [apply JSMapFacts.get_delete_same | now right].
  - intros H; inversion H; subst. split; [assumption | now left].
Qed.

Lemma GET_outcome P req env w :
  Outcome P req env w (GET P req env w).
Proof.
  destruct (Nat.ltb_spec (String.length (normalizeQuery P (queryOf req))) 2) as [Hs|Hl].
  { rewrite (GET_short P req env w Hs). now constructor. }
  destruct (getCache (keyOf P req) (now_get env) (CACHE w)) as [[c|] C1] eqn:Hg.
  - rewrite (GET_hit P req env w Hl Hg).
    apply getCache_Some_inv in Hg. destruct Hg as (-> & hit & Hhit & <- & Hfresh).
    now apply Hit.
  - rewrite (GET_miss P req env w Hl Hg). cbv zeta.
    destruct (fetch env _) as [e|ok st txt] eqn:Hf.
    { unfold unexpected. eapply Failed; eauto. }
    destruct ok.
    2:{ eapply Failed; eauto. }
    destruct txt as [html|e].
    2:{ unfold unexpected. eapply Failed; eauto. }
    destruct (parseSunbiz _ html _) as [parsed|e] eqn:Hp.
    2:{ unfold unexpected. eapply Failed; eauto. }
    eapply Stored; eauto.
Qed.

Ltac by_outcome P req env w :=
  let H := fresh "Hout" in
  pose proof (GET_outcome P req env w) as H;
  destruct (GET P req env w) as [resp w'] eqn:HGET;
  inversion H; subst; clear H.

(** X6: a request only adds to the trace, and what it adds holds at most
    one fetch, of the registry's search address for the query as it was
    sent (not its normal form). *)
Theorem request_fetches_at_most_the_search_url_once :
  forall P req env w,
    exists events,
      trace (snd (GET P req env w)) = (trace w ++ events)%list /\
      (fetches events = [] \/
       fetches events = [searchUrl baseUrl (queryOf req)]).
Proof.
  intros P req env w. by_outcome P req env w; simpl.
  - exists []. rewrite app_nil_r. auto.
  - eexists. split; [reflexivity | now left].
  - eexists. rewrite <- app_assoc. split; [reflexivity | now right].
  - eexists. rewrite <- !app_assoc. split; [reflexivity | now right].
Qed.

(** X7: after a request for a query of normalised length at least 2, the
    cache holds an entry under the key of the request exactly when the
    answer has status 200: a failed fetch or a failed extraction stores
    nothing, and an expired entry found on the way is gone. *)
Theorem key_is_cached_exactly_when_answer_is_200 :
  forall P req env w,
    (2 <= String.length (normalizeQuery P (queryOf req)))%nat ->
    (http_status (fst (GET P req env w)) = 200 <->
     exists e, JSMap.get (keyOf P req)
                 (CACHE (snd (GET P req env w))) = Some e).
Proof.
  intros P req env w Hlen. by_outcome P req env w; simpl.
  - lia.
  - split; [intros _; now exists hit | reflexivity].
  - match goal with Hg : getCache _ _ _ = (None, _) |- _ =>
      apply getCache_None_inv in Hg as [Hnone _] end.
    rewrite Hnone. split.
    + intros ->. match goal with Hc : _ \/ _ |- _ => destruct Hc; discriminate end.
    + intros (e & He). discriminate.
  - split; [intros _; eexists; apply setCache_get_same | reflexivity].
Qed.

Lemma key_is_cached_exactly_when_answer_is_200_witness :
  http_status (fst (Sample.GET (mkRequest (Some "tesla") (Some "7"))
                      (Sample.env Sample.unavailable) Sample.emptyWorld)) = 502 /\
  JSMap.get (keyOf Sample.platform (mkRequest (Some "tesla") (Some "7")))
    (CACHE (snd (Sample.GET (mkRequest (Some "tesla") (Some "7"))
                   (Sample.env Sample.unavailable) Sample.emptyWorld))) = None.
Proof.
  assert (Hlen : (2 <= String.length
                   (normalizeQuery Sample.platform (queryOf (mkRequest (Some "tesla") (Some "7")))))%nat).
  { vm_compute. repeat constructor. }
  pose proof (@key_is_cached_exactly_when_answer_is_200
                Sample.platform
                (mkRequest (Some "tesla") (Some "7"))
                (Sample.env Sample.unavailable) Sample.emptyWorld Hlen) as [_ Hback].
  split; [vm_compute; reflexivity|].
  destruct (JSMap.get _ _) as [e|] eqn:E; [|reflexivity].
  specialize (Hback (ex_intro _ e eq_refl)). vm_compute in Hback. discriminate Hback.
Defined.

(** X8: whatever limit is requested, an answer holds at most ten records. *)
Theorem answer_holds_at_most_ten_records :
  forall P req env w,
    (List.length (resultsOf (fst (GET P req env w))) <= 10)%nat.
Proof.
  intros P req env w. by_outcome P req env w; unfold resultsOf; simpl;
    try lia; apply effectiveLimit_slice_length.
Qed.

(** X9: the records served from the cache are the records of the answer
    that stored them: a repeated request within the TTL gets exactly the
    list the first request got, the first [limit] extracted records. *)
Theorem hit_serves_the_records_of_the_miss :
  forall P req env1 env2 w parsed,
    missThenSuccess P req env1 w parsed ->
    now_get env2 <= now_set env1 + CACHE_TTL_MS ->
    resultsOf (fst (GET P req env2
                      (snd (GET P req env1 w))))
    = resultsOf (fst (GET P req env1 w)) /\
    resultsOf (fst (GET P req env1 w))
    = JSNumber.slice0 parsed (limitOf req).
Proof.
  intros P req env1 env2 w parsed Hmiss Hnow.
  pose proof Hmiss as (Hlen & _).
  destruct (missThenSuccess_GET Hmiss) as (C1 & _ & HG).
  rewrite HG. cbn [fst snd]. split; [|reflexivity].
  pose proof (setCache_get_same (keyOf P req) (JSNumber.slice0 parsed (limitOf req))
                (now_set env1) C1) as Hget.
  match goal with
  | |- context [GET P req env2 ?w1] =>
      rewrite (@GET_hit P req env2 w1
                 (JSNumber.slice0 parsed (limitOf req)) (CACHE w1) Hlen)
  end.
  - unfold resultsOf. simpl. apply effectiveLimit_slice_idem.
  - simpl. now apply (getCache_hit (keyOf P req) _ Hget).
Qed.

Lemma hit_serves_the_records_of_the_miss_witness :
  resultsOf (fst (Sample.GET (mkRequest (Some "Tesla") (Some "1"))
                    (mkEnv 5000 5001 (Sample.network Sample.unavailable))
                    (snd (Sample.GET (mkRequest (Some "Tesla") (Some "1"))
                            (Sample.env (Sample.ok Sample.two_rows_html))
                            Sample.emptyWorld))))
  = resultsOf (fst (Sample.GET (mkRequest (Some "Tesla") (Some "1"))
                      (Sample.env (Sample.ok Sample.two_rows_html))
                      Sample.emptyWorld)).
Proof.
  assert (Hnow : now_get (mkEnv 5000 5001 (Sample.network Sample.unavailable))
                 <= now_set (Sample.env (Sample.ok Sample.two_rows_html)) + CACHE_TTL_MS).
  { vm_compute. discriminate. }
  exact (proj1 (@hit_serves_the_records_of_the_miss _ _ _ _ _ _
                  sample_miss_two_rows Hnow)).
Defined.

(** X10: an answer tagged [fromCache = true] has changed nothing: the cache
    is the one the request found, so reading an entry does not renew its
    expiry, and no fetch was made. *)
Theorem cached_answer_leaves_cache_and_network_alone :
  forall P req env w,
    fromCacheOf (fst (GET P req env w)) = Some true ->
    CACHE (snd (GET P req env w)) = CACHE w /\
    fetches (trace (snd (GET P req env w))) = fetches (trace w) /\
    exists hit,
      JSMap.get (keyOf P req) (CACHE w) = Some hit /\ now_get env <= expiresAt hit /\
      resultsOf (fst (GET P req env w))
      = JSNumber.slice0 (value hit) (limitOf req).
Proof.
  intros P req env w. by_outcome P req env w; unfold fromCacheOf; simpl;
    intros Htag; try discriminate Htag.
  split; [reflexivity|]. split.
  - unfold fetches. rewrite flat_map_app. simpl. apply app_nil_r.
  - exists hit. repeat split; assumption.
Qed.

Lemma cached_answer_leaves_cache_and_network_alone_witness :
  CACHE (snd (Sample.GET (mkRequest (Some "tesla") (Some "7"))
                (mkEnv 2000 2001 (Sample.network Sample.unavailable))
                (snd (Sample.GET (mkRequest (Some "tesla") (Some "7"))
                        (Sample.env (Sample.ok Sample.tesla_html)) Sample.emptyWorld))))
  = CACHE (snd (Sample.GET (mkRequest (Some "tesla") (Some "7"))
                  (Sample.env (Sample.ok Sample.tesla_html)) Sample.emptyWorld)).
Proof.
  assert (Htag : fromCacheOf
                   (fst (GET Sample.platform
                           (mkRequest (Some "tesla") (Some "7"))
                           (mkEnv 2000 2001 (Sample.network Sample.unavailable))
                           (snd (Sample.GET (mkRequest (Some "tesla") (Some "7"))
                                   (Sample.env (Sample.ok Sample.tesla_html))
                                   Sample.emptyWorld)))) = Some true).
  { vm_compute. reflexivity. }
  exact (proj1 (@cached_answer_leaves_cache_and_network_alone _ _ _ _ Htag)).
Defined.

(** ** The cache: what a call leaves alone *)

(** X11: looking one key up never disturbs another key: whether the lookup
    hits, misses or deletes an expired entry, every other key keeps its
    entry, and the cache never grows. *)
Theorem getCache_leaves_other_keys_alone :
  forall key other now c,
    other <> key ->
    JSMap.get other (snd (getCache key now c)) = JSMap.get other c /\
    JSMap.size (snd (getCache key now c)) <= JSMap.size c.
Proof.
  intros key other now c Hne. unfold getCache.
  destruct (JSMap.get key c) as [hit|]; [|simpl; split; [reflexivity | lia]].
  destruct (now >? expiresAt hit); simpl; [|split; [reflexivity | lia]].
  split; [apply JSMapFacts.get_delete_other; congruence | apply size_delete].
Qed.

Lemma getCache_leaves_other_keys_alone_witness :
  JSMap.get "tesla:7"
    (snd (getCache "acme:7" (1 + CACHE_TTL_MS)
            (setCache "tesla:7" [Sample.tesla_record] 1000 (setCache "acme:7" [] 0 []))))
  = JSMap.get "tesla:7"
      (setCache "tesla:7" [Sample.tesla_record] 1000 (setCache "acme:7" [] 0 [])).
Proof.
  assert (Hne : "tesla:7" <> "acme:7") by discriminate.
  exact (proj1 (@getCache_leaves_other_keys_alone "acme:7" "tesla:7" (1 + CACHE_TTL_MS)
                  (setCache "tesla:7" [Sample.tesla_record] 1000 (setCache "acme:7" [] 0 []))
                  Hne)).
Defined.

(** X12: storing under one key leaves every other key's entry as it was,
    unless the map was full and that other key was its oldest. *)
Theorem setCache_changes_only_its_key_and_the_evicted_one :
  forall key other v now c,
    other <> key ->
    JSMap.size c < CACHE_MAX_ENTRIES \/ JSMap.firstKey c <> Some other ->
    JSMap.get other (setCache key v now c) = JSMap.get other c.
Proof.
  intros key other v now c Hne Hkeep. unfold setCache.
  rewrite JSMapFacts.get_set_other by congruence.
  destruct (JSMap.size c >=? CACHE_MAX_ENTRIES) eqn:E; [|reflexivity].
  destruct Hkeep as [Hsmall|Hfirst].
  { rewrite Z.geb_leb in E. apply Z.leb_le in E. lia. }
  destruct (JSMap.firstKey c) as [k0|]; [|reflexivity].
  destruct (JSString.truthy k0); [|reflexivity].
  apply JSMapFacts.get_delete_other. congruence.
Qed.

Lemma setCache_changes_only_its_key_and_the_evicted_one_witness :
  JSMap.get "tesla:7" (setCache "acme:7" [] 2000 (setCache "tesla:7" [Sample.tesla_record] 1000 []))
  = JSMap.get "tesla:7" (setCache "tesla:7" [Sample.tesla_record] 1000 []).
Proof.
  assert (Hne : "tesla:7" <> "acme:7") by discriminate.
  assert (Hsmall : JSMap.size (setCache "tesla:7" [Sample.tesla_record] 1000 [])
                   < CACHE_MAX_ENTRIES) by (vm_compute; reflexivity).
  exact (@setCache_changes_only_its_key_and_the_evicted_one
           "acme:7" "tesla:7" [] 2000
           (setCache "tesla:7" [Sample.tesla_record] 1000 []) Hne (or_introl Hsmall)).
Defined.

(** ** The cache of every reachable world *)

Lemma Forall_firstn {A : Type} (P : A -> Prop) (n : nat) (l : list A) :
  Forall P l -> Forall P (firstn n l).
Proof.
  intros H. rewrite <- (firstn_skipn n l) in H.
  now apply Forall_app in H as [H _].
Qed.

Lemma Forall_slice0 {A : Type} (P : A -> Prop) (l : list A) y :
  Forall P l -> Forall P (JSNumber.slice0 l y).
Proof.
  intros H. destruct (slice0_is_firstn l y) as (n & ->). now apply Forall_firstn.
Qed.

Lemma parseSunbiz_wellNamed P html base rs :
  parseSunbiz P html base = Return rs -> Forall wellNamed rs.
Proof.
  intros H.
  destruct (parseSunbiz_records P html base H)
    as [(_ & _ & HP & _) | (_ & _ & HP & _)];
    eapply Forall_impl; try exact HP; simpl; tauto.
Qed.

Lemma get_delete_Some k k0 c e :
  JSMap.get k (JSMap.delete k0 c) = Some e -> JSMap.get k c = Some e.
Proof.
  destruct (string_dec k0 k) as [->|Hne].
  - now rewrite JSMapFacts.get_delete_same.
  - now rewrite JSMapFacts.get_delete_other.
Qed.

Lemma get_setCache_Some k key v now c e :
  JSMap.get k (setCache key v now c) = Some e ->
  (k = key /\ e = mkEntry v (now + CACHE_TTL_MS)) \/ JSMap.get k c = Some e.
Proof.
  destruct (string_dec k key) as [->|Hne].
  - rewrite setCache_get_same. intros H; inversion H. now left.
  - destruct (@setCache_get_other key v now c k Hne) as [-> | ->];
      [now right | discriminate].
Qed.

(** The values the handler stores. *)
Lemma GET_keeps_values P (Q : list SunbizResult -> Prop) req env w :
  (forall parsed html,
      parseSunbiz P html baseUrl = Return parsed ->
      Q (JSNumber.slice0 parsed (limitOf req))) ->
  (forall k e, JSMap.get k (CACHE w) = Some e -> Q (value e)) ->
  forall k e,
    JSMap.get k (CACHE (snd (GET P req env w))) = Some e ->
    Q (value e).
Proof.
  intros Hnew Hold k e. by_outcome P req env w; simpl.
  - apply Hold.
  - apply Hold.
  - match goal with Hg : getCache _ _ _ = (None, _) |- _ =>
      apply getCache_None_inv in Hg as [_ [->| ->]] end.
    + apply Hold.
    + intros H. apply get_delete_Some in H. eapply Hold; eassumption.
  - intros H. apply get_setCache_Some in H as [[-> ->] | H].
    + simpl. eapply Hnew. eassumption.
    + match goal with Hg : getCache _ _ _ = (None, _) |- _ =>
        apply getCache_None_inv in Hg as [_ [->| ->]] end.
      * eapply Hold; eassumption.
      * apply get_delete_Some in H. eapply Hold; eassumption.
Qed.

(** X13: in every world reached from the empty cache, whatever the
    requests, the clock and the network were, the cache holds each key once,
    at most 200 entries and no empty key, and every cached list has at most
    ten records, each with a non-empty trimmed name. *)
Theorem reachable_cache_is_bounded_and_well_formed :
  forall P w,
    reachable P w ->
    cacheOk (CACHE w) /\
    forall k e,
      JSMap.get k (CACHE w) = Some e ->
      (List.length (value e) <= 10)%nat /\ Forall wellNamed (value e).
Proof.
  intros P w Hreach. induction Hreach as [|req env w Hreach [Hok Hval]].
  - split.
    + split; [constructor|]. split; [vm_compute; discriminate | intros k []].
    + intros k e H. discriminate H.
  - split; [now apply GET_keeps_cacheOk|].
    apply (GET_keeps_values P
             (fun v => (List.length v <= 10)%nat /\ Forall wellNamed v)).
    + intros parsed html Hp. split.
      * apply effectiveLimit_slice_length.
      * apply Forall_slice0. now apply (parseSunbiz_wellNamed P html baseUrl).
    + exact Hval.
Qed.

Lemma reachable_cache_is_bounded_and_well_formed_witness :
  cacheOk (CACHE (snd (Sample.GET (mkRequest (Some "Tesla") (Some "1"))
                         (Sample.env (Sample.ok Sample.two_rows_html))
                         Sample.emptyWorld))).
Proof.
  exact (proj1 (@reachable_cache_is_bounded_and_well_formed
                  Sample.platform _
                  (reach_request (mkRequest (Some "Tesla") (Some "1"))
                     (Sample.env (Sample.ok Sample.two_rows_html))
                     (reach_start Sample.platform)))).
Defined.

(** ** The address that is fetched *)

Lemma encodeChar_urlSafe c : forallb urlSafe (JSString.encodeChar c) = true.
Proof.
  destruct c as [b0 b1 b2 b3 b4 b5 b6 b7];
    destruct b0, b1, b2, b3, b4, b5, b6, b7; reflexivity.
Qed.

Lemma encode_chars_urlSafe l : forallb urlSafe (flat_map JSString.encodeChar l) = true.
Proof.
  induction l as [|c r IH]; simpl; [reflexivity|].
  now rewrite forallb_app, encodeChar_urlSafe, IH.
Qed.

(** X14: the address fetched is the fixed search address followed by a
    term made only of unreserved characters and percent signs, so no query,
    whatever it holds, can add a parameter, a fragment or a space to it. *)
Theorem fetched_address_cannot_be_extended_by_the_query :
  forall q,
    exists term,
      searchUrl baseUrl q = searchPrefix ++ term /\
      forallb urlSafe (list_ascii_of_string term) = true /\
      forallb (fun c => negb (existsb (Ascii.eqb c) ["&"; "="; "#"; "?"; "/"; " "; "+"]%char))
              (list_ascii_of_string term) = true.
Proof.
  intros q. exists (JSString.encodeURIComponent q). split; [reflexivity|].
  unfold JSString.encodeURIComponent. rewrite list_ascii_of_string_of_list_ascii.
  pose proof (encode_chars_urlSafe (list_ascii_of_string q)) as H.
  split; [exact H|].
  rewrite forallb_forall in *. intros c Hc. specialize (H c Hc).
  destruct c as [b0 b1 b2 b3 b4 b5 b6 b7];
    destruct b0, b1, b2, b3, b4, b5, b6, b7; try reflexivity; discriminate H.
Qed.

(** ** The limit of a request that spells an integer *)

Lemma digit_not_whitespace c : JSNumber.isDigit c = true -> JSString.isWhiteSpace c = false.
Proof.
  destruct c as [b0 b1 b2 b3 b4 b5 b6 b7];
    destruct b0, b1, b2, b3, b4, b5, b6, b7; try reflexivity; discriminate.
Qed.

Lemma digits_trimStart l :
  forallb JSNumber.isDigit l = true -> JSString.trimStart l = l.
Proof.
  destruct l as [|c r]; [reflexivity|]. simpl. intros H.
  apply andb_prop in H as [Hc _]. unfold JSString.trimStart. simpl.
  now rewrite (digit_not_whitespace c Hc).
Qed.

Lemma forallb_rev {A : Type} (p : A -> bool) (l : list A) :
  forallb p (rev l) = forallb p l.
Proof.
  induction l as [|x r IH]; simpl; [reflexivity|].
  rewrite forallb_app, IH. simpl. rewrite andb_true_r. apply andb_comm.
Qed.

Lemma digits_trim l :
  forallb JSNumber.isDigit l = true ->
  JSString.trimEnd (JSString.trimStart l) = l.
Proof.
  intros H. rewrite (digits_trimStart l H). unfold JSString.trimEnd.
  rewrite digits_trimStart by now rewrite forallb_rev.
  apply rev_involutive.
Qed.

Lemma span_digits l :
  forallb JSNumber.isDigit l = true -> JSNumber.span JSNumber.isDigit l = (l, []).
Proof.
  induction l as [|c r IH]; simpl; [reflexivity|]. intros H.
  apply andb_prop in H as [Hc Hr]. now rewrite Hc, (IH Hr).
Qed.

Lemma unsignedDecimal_digits c r :
  JSNumber.isDigit c = true -> forallb JSNumber.isDigit r = true ->
  JSNumber.unsignedDecimal (c :: r)
  = JSNumber.Finite (JSNumber.digitsValue 10 (c :: r)) 0.
Proof.
  intros Hc Hr. unfold JSNumber.unsignedDecimal.
  assert (Hinf : String.eqb (string_of_list_ascii (c :: r)) "Infinity" = false).
  { simpl. destruct (Ascii.eqb c "I") eqn:E; [|reflexivity].
    apply Ascii.eqb_eq in E. subst c. discriminate Hc. }
  rewrite Hinf. rewrite span_digits by (simpl; now rewrite Hc, Hr).
  cbn [JSNumber.nonEmpty JSNumber.exponentPart]. unfold JSNumber.mk.
  destruct (Z.eqb_spec (JSNumber.digitsValue 10 (c :: r)) 0) as [->|Hnz]; [reflexivity|].
  cbn [Z.leb Z.compare]. change (10 ^ 0) with 1. now rewrite Z.mul_1_r.
Qed.

Lemma ofString_digits s :
  s <> "" -> forallb JSNumber.isDigit (list_ascii_of_string s) = true ->
  JSNumber.ofString s = JSNumber.Finite (JSNumber.digitsValue 10 (list_ascii_of_string s)) 0.
Proof.
  intros Hne Hd. unfold JSNumber.ofString. rewrite (digits_trim _ Hd).
  destruct (list_ascii_of_string s) as [|c r] eqn:El.
  { destruct s; [congruence | discriminate El]. }
  pose proof Hd as Hd'. simpl in Hd'. apply andb_prop in Hd' as [Hc Hr].
  rewrite <- (unsignedDecimal_digits c r Hc Hr).
  destruct c as [b0 b1 b2 b3 b4 b5 b6 b7];
    destruct b0, b1, b2, b3, b4, b5, b6, b7; try discriminate Hc; try reflexivity.
  destruct r as [|d r']; [reflexivity|].
  simpl in Hr. apply andb_prop in Hr as [Hdd _].
  destruct d as [b0 b1 b2 b3 b4 b5 b6 b7];
    destruct b0, b1, b2, b3, b4, b5, b6, b7; try discriminate Hdd; reflexivity.
Qed.

Lemma clamp_integer z :
  JSNumber.Math_max (JSNumber.ofZ 1) (JSNumber.Math_min (JSNumber.ofZ 10) (JSNumber.Finite z 0))
  = JSNumber.ofZ (Z.max 1 (Z.min 10 z)).
Proof.
  unfold JSNumber.Math_max, JSNumber.Math_min, JSNumber.ofZ, JSNumber.leb.
  cbn [JSNumber.isNaN orb]. change (Z.min 0 0) with 0. change (10 ^ (0 - 0)) with 1.
  rewrite !Z.mul_1_r.
  destruct (Z.leb_spec 10 z) as [H|H]; cbn [JSNumber.isNaN orb];
    change (0 - Z.min 0 0) with 0; change (10 ^ 0) with 1; rewrite ?Z.mul_1_r.
  - change (1 <=? 10) with true. cbv iota. f_equal. lia.
  - destruct (Z.leb_spec 1 z) as [H1|H1]; f_equal; lia.
Qed.

(** X15: when the limit parameter is a non-empty string of decimal digits,
    the effective limit is the integer it spells, raised to 1 or lowered to
    10 when it lies outside: an integer between 1 and 10. *)
Theorem digit_limit_is_clamped_to_one_through_ten :
  forall s,
    s <> "" ->
    forallb JSNumber.isDigit (list_ascii_of_string s) = true ->
    effectiveLimit (Some s)
    = JSNumber.ofZ (Z.max 1 (Z.min 10 (JSNumber.digitsValue 10 (list_ascii_of_string s)))) /\
    JSNumber.integerIn 1 10 (effectiveLimit (Some s)).
Proof.
  intros s Hne Hd.
  assert (E : effectiveLimit (Some s)
              = JSNumber.ofZ (Z.max 1 (Z.min 10 (JSNumber.digitsValue 10 (list_ascii_of_string s))))).
  { unfold effectiveLimit, requestedLimit.
    destruct s as [|a s']; [congruence|]. cbn [JSString.truthy].
    rewrite (ofString_digits Hne Hd). apply clamp_integer. }
  split; [exact E|]. rewrite E. eexists. split; [reflexivity | lia].
Qed.

Lemma digit_limit_is_clamped_to_one_through_ten_witness :
  effectiveLimit (Some "0042") = JSNumber.ofZ 10 /\
  JSNumber.integerIn 1 10 (effectiveLimit (Some "0042")).
Proof.
  assert (Hne : "0042" <> "") by discriminate.
  assert (Hd : forallb JSNumber.isDigit (list_ascii_of_string "0042") = true)
    by (vm_compute; reflexivity).
  exact (@digit_limit_is_clamped_to_one_through_ten "0042" Hne Hd).
Defined.

(** ** The search box *)

Module SearchBoxFacts.
Import SearchBox.

Lemma containsCS_cons p a l :
  JSString.containsCS p (a :: l)
  = JSString.prefixCS p (a :: l) || JSString.containsCS p l.
Proof. reflexivity. Qed.

Lemma prefix_contains p l :
  JSString.prefixCS p l = true -> JSString.containsCS p l = true.
Proof.
  destruct l as [|a r]; intros H.
  - simpl. now rewrite H.
  - now rewrite containsCS_cons, H.
Qed.

Lemma prefix_drop_two x y p l :
  JSString.prefixCS (x :: y :: p) l = true -> JSString.containsCS p l = true.
Proof.
  destruct l as [|a [|b r]]; cbn [JSString.prefixCS]; try discriminate.
  - now rewrite andb_false_r.
  - intros H. apply andb_prop in H as [_ H]. apply andb_prop in H as [_ H].
    rewrite !containsCS_cons, (prefix_contains _ _ H). now rewrite !orb_true_r.
Qed.

Lemma prefix_inactive_contains_active l :
  JSString.prefixCS (list_ascii_of_string "inactive") l = true ->
  JSString.containsCS (list_ascii_of_string "active") l = true.
Proof.
  change (list_ascii_of_string "inactive")
    with ("i"%char :: "n"%char :: list_ascii_of_string "active").
  apply prefix_drop_two.
Qed.

Lemma contains_inactive_contains_active l :
  JSString.containsCS (list_ascii_of_string "inactive") l = true ->
  JSString.containsCS (list_ascii_of_string "active") l = true.
Proof.
  induction l as [|a r IH].
  - cbn. discriminate.
  - rewrite !containsCS_cons. intros H. apply orb_prop in H as [H|H].
    + rewrite <- containsCS_cons. now apply prefix_inactive_contains_active.
    + rewrite (IH H). apply orb_true_r.
Qed.

Lemma rem_in_range a len : 0 <= a -> 0 < len -> 0 <= Z.rem a len < len.
Proof. intros Ha Hl. apply Z.rem_bound_pos; assumption. Qed.

End SearchBoxFacts.

(** X16: a status that contains "inactive" in any letter case gets the
    class of an active status, because the test for "active" comes first;
    the destructive class is only given to a status without "active" that
    contains "revoked" or "involuntary". *)
Theorem inactive_status_gets_the_active_class :
  forall P statusText,
    (JSString.includes (toLowerCase P statusText) "inactive" = true ->
     SearchBox.getStatusChipClass P statusText = "bg-accent text-accent-foreground") /\
    (SearchBox.getStatusChipClass P statusText = "bg-destructive text-primary-foreground" ->
     JSString.includes (toLowerCase P statusText) "active" = false /\
     JSString.includes (toLowerCase P statusText) "inactive" = false /\
     (JSString.includes (toLowerCase P statusText) "revoked" = true \/
      JSString.includes (toLowerCase P statusText) "involuntary" = true)).
Proof.
  intros P s. unfold SearchBox.getStatusChipClass. cbv zeta.
  destruct (JSString.includes (toLowerCase P s) "active") eqn:Ea.
  - split; [reflexivity | discriminate].
  - assert (Hi : JSString.includes (toLowerCase P s) "inactive" = false).
    { destruct (JSString.includes (toLowerCase P s) "inactive") eqn:Ei; [|reflexivity].
      unfold JSString.includes in *.
      apply SearchBoxFacts.contains_inactive_contains_active in Ei. congruence. }
    rewrite Hi. split; [discriminate|].
    cbn [orb].
    destruct (JSString.includes (toLowerCase P s) "revoked") eqn:Er; cbn [orb].
    + intros _. auto.
    + destruct (JSString.includes (toLowerCase P s) "involuntary") eqn:Ev;
        [intros _; auto | discriminate].
Qed.

Example status_chip_examples :
  map (SearchBox.getStatusChipClass Sample.platform) ["ACTIVE"; "INACTIVE"; "Inact/UA"; "ADMIN DISSOLUTION (REVOKED)"; "Name HS"]
  = ["bg-accent text-accent-foreground"; "bg-accent text-accent-foreground";
     "bg-muted text-muted-foreground"; "bg-destructive text-primary-foreground";
     "bg-muted text-muted-foreground"].
Proof. vm_compute. reflexivity. Qed.

(** X17: for an input whose trimmed text keeps its length when it is
    lower-cased, the search box asks for results exactly when the handler
    accepts the query: its two-character minimum on the trimmed input is
    then the handler's check on the normalised query, so a request it sends
    is never answered with the validation error, and one it holds back
    would have been. *)
Theorem search_box_minimum_matches_the_handler_check :
  forall P q limit env w,
    String.length (toLowerCase P (JSString.trim q)) = String.length (JSString.trim q) ->
    SearchBox.shouldSearch q
    = negb (http_status (fst (GET P (mkRequest (Some q) limit) env w))
            =? 400).
Proof.
  intros P q limit env w Hlen.
  assert (Hq : queryOf (mkRequest (Some q) limit) = q)
    by (unfold queryOf; simpl; apply JSStringFacts.truthy_self).
  unfold SearchBox.shouldSearch.
  rewrite <- Hlen. fold (normalizeQuery P q).
  by_outcome P (mkRequest (Some q) limit) env w; cbn [fst http_status];
    rewrite Hq in *.
  - change (400 =? 400) with true. apply Nat.leb_gt. assumption.
  - change (200 =? 400) with false. apply Nat.leb_le. assumption.
  - match goal with Hc : _ \/ _ |- _ => destruct Hc as [-> | ->] end.
    + change (500 =? 400) with false. apply Nat.leb_le. assumption.
    + change (502 =? 400) with false. apply Nat.leb_le. assumption.
  - change (200 =? 400) with false. apply Nat.leb_le. assumption.
Qed.

Lemma search_box_minimum_matches_the_handler_check_witness :
  String.length (toLowerCase Sample.platform (JSString.trim " T "))
  = String.length (JSString.trim " T ") /\
  SearchBox.shouldSearch " T " = false /\
  http_status (fst (Sample.GET (mkRequest (Some " T ") None)
                      (Sample.env (Sample.ok Sample.tesla_html)) Sample.emptyWorld))
  = 400.
Proof.
  assert (Hlen : String.length (toLowerCase Sample.platform (JSString.trim " T "))
                 = String.length (JSString.trim " T ")) by reflexivity.
  pose proof (@search_box_minimum_matches_the_handler_check
                Sample.platform " T " None
                (Sample.env (Sample.ok Sample.tesla_html)) Sample.emptyWorld Hlen)
    as H.
  split; [exact Hlen|]. split; [reflexivity|].
  change (SearchBox.shouldSearch " T ") with false in H.
  destruct (http_status (fst (GET Sample.platform (mkRequest (Some " T ") None)
                      (Sample.env (Sample.ok Sample.tesla_html)) Sample.emptyWorld))
            =? 400) eqn:E; [|discriminate H].
  apply Z.eqb_eq. exact E.
Defined.

(** X18: the keys never move the highlighted index off the list: from an
    index that points at a result, any key leaves an index that points at a
    result; and while the list is closed or empty, whatever the index, no
    key changes the state or is swallowed. *)
Theorem keys_keep_the_highlight_on_the_list :
  forall key results st,
    (SearchBox.inRange results st ->
     SearchBox.inRange results (fst (SearchBox.onKeyDown key results st))) /\
    (SearchBox.open st = false \/ results = [] ->
     SearchBox.onKeyDown key results st = (st, [])).
Proof.
  intros key results st. split.
  - intros Hin. unfold SearchBox.inRange in *.
    unfold SearchBox.onKeyDown. cbv zeta.
    destruct (SearchBox.open st); cbn [negb orb]; [|exact Hin].
    destruct (Z.eqb_spec (Z.of_nat (List.length results)) 0) as [E|E]; [exact Hin|].
    destruct (String.eqb key "ArrowDown"); [simpl; apply SearchBoxFacts.rem_in_range; lia|].
    destruct (String.eqb key "ArrowUp"); [simpl; apply SearchBoxFacts.rem_in_range; lia|].
    destruct (String.eqb key "Enter").
    { destruct (SearchBox.item_at results (SearchBox.highlighted st)); simpl; exact Hin. }
    destruct (String.eqb key "Escape"); simpl; exact Hin.
  - intros [Hclosed | ->]; unfold SearchBox.onKeyDown; cbv zeta.
    + now rewrite Hclosed.
    + cbn [List.length Z.of_nat Z.eqb]. now rewrite orb_true_r.
Qed.

Lemma keys_keep_the_highlight_on_the_list_witness :
  SearchBox.inRange [Sample.tesla_record; Sample.motors_record]
    (fst (SearchBox.onKeyDown "ArrowDown" [Sample.tesla_record; Sample.motors_record]
            (SearchBox.mkState "tes" true 1))) /\
  SearchBox.onKeyDown "ArrowDown" [] (SearchBox.mkState "" false 0)
  = (SearchBox.mkState "" false 0, []).
Proof.
  split; [|exact (proj2 (@keys_keep_the_highlight_on_the_list "ArrowDown" []
                           (SearchBox.mkState "" false 0))
                    (or_intror eq_refl))].
  assert (Hin : SearchBox.inRange [Sample.tesla_record; Sample.motors_record]
                  (SearchBox.mkState "tes" true 1)).
  { unfold SearchBox.inRange. simpl. lia. }
  exact (proj1 (@keys_keep_the_highlight_on_the_list "ArrowDown"
                  [Sample.tesla_record; Sample.motors_record]
                  (SearchBox.mkState "tes" true 1)) Hin).
Defined.

(** X19: on an open list, ArrowUp undoes ArrowDown and ArrowDown undoes
    ArrowUp, also across the ends of the list, where the highlight wraps
    around. *)
Theorem arrow_keys_undo_each_other :
  forall results st,
    SearchBox.open st = true ->
    SearchBox.inRange results st ->
    fst (SearchBox.onKeyDown "ArrowUp" results
           (fst (SearchBox.onKeyDown "ArrowDown" results st))) = st /\
    fst (SearchBox.onKeyDown "ArrowDown" results
           (fst (SearchBox.onKeyDown "ArrowUp" results st))) = st.
Proof.
  intros results [q o h] Hopen Hin. unfold SearchBox.inRange in Hin.
  simpl in Hopen, Hin. subst o.
  unfold SearchBox.onKeyDown. cbv zeta. cbn [SearchBox.open negb orb].
  set (len := Z.of_nat (List.length results)) in *.
  destruct (Z.eqb_spec len 0) as [E|E]; [lia|].
  cbn [String.eqb Ascii.eqb Bool.eqb fst SearchBox.open SearchBox.query
       SearchBox.highlighted negb orb].
  destruct (Z.eqb_spec len 0) as [E'|_]; [lia|].
  cbn [fst]. split; f_equal.
  - rewrite (Z.rem_mod_nonneg (h + 1) len) by lia.
    destruct (Z.eq_dec (h + 1) len) as [Hw|Hw].
    + rewrite Hw, Z_mod_same_full. rewrite Z.rem_mod_nonneg by lia.
      replace (0 - 1 + len) with (len - 1) by lia.
      rewrite Z.mod_small by lia. lia.
    + rewrite (Z.mod_small (h + 1) len) by lia.
      rewrite Z.rem_mod_nonneg by lia.
      replace (h + 1 - 1 + len) with (h + 1 * len) by lia.
      rewrite Z_mod_plus_full. apply Z.mod_small. lia.
  - rewrite (Z.rem_mod_nonneg (h - 1 + len) len) by lia.
    destruct (Z.eq_dec h 0) as [Hw|Hw].
    + subst h. replace (0 - 1 + len) with (len - 1) by lia.
      rewrite (Z.mod_small (len - 1) len) by lia.
      rewrite Z.rem_mod_nonneg by lia.
      replace (len - 1 + 1) with len by lia. apply Z_mod_same_full.
    + replace (h - 1 + len) with (h - 1 + 1 * len) by lia.
      rewrite Z_mod_plus_full, (Z.mod_small (h - 1) len) by lia.
      rewrite Z.rem_mod_nonneg by lia.
      replace (h - 1 + 1) with h by lia. apply Z.mod_small. lia.
Qed.

Lemma arrow_keys_undo_each_other_witness :
  fst (SearchBox.onKeyDown "ArrowUp" [Sample.tesla_record; Sample.motors_record]
         (fst (SearchBox.onKeyDown "ArrowDown" [Sample.tesla_record; Sample.motors_record]
                 (SearchBox.mkState "tes" true 1))))
  = SearchBox.mkState "tes" true 1.
Proof.
  assert (Hin : SearchBox.inRange [Sample.tesla_record; Sample.motors_record]
                  (SearchBox.mkState "tes" true 1)).
  { unfold SearchBox.inRange. simpl. lia. }
  exact (proj1 (@arrow_keys_undo_each_other
                  [Sample.tesla_record; Sample.motors_record]
                  (SearchBox.mkState "tes" true 1) eq_refl Hin)).
Defined.

(** X20: on an open list whose highlight points at a result, Enter selects
    that result: the input takes its name, the list closes, the key is
    swallowed and the selection callback receives the result. *)
Theorem enter_selects_the_highlighted_result :
  forall results st,
    SearchBox.open st = true ->
    SearchBox.inRange results st ->
    exists item,
      nth_error results (Z.to_nat (SearchBox.highlighted st)) = Some item /\
      SearchBox.onKeyDown "Enter" results st
      = (SearchBox.mkState (name item) false (SearchBox.highlighted st),
         [SearchBox.PreventDefault; SearchBox.OnSelect item]).
Proof.
  intros results st Hopen Hin. unfold SearchBox.inRange in Hin.
  destruct (nth_error results (Z.to_nat (SearchBox.highlighted st))) as [item|] eqn:E.
  2:{ apply nth_error_None in E. lia. }
  exists item. split; [reflexivity|].
  unfold SearchBox.onKeyDown. cbv zeta. rewrite Hopen. cbn [negb orb].
  destruct (Z.eqb_spec (Z.of_nat (List.length results)) 0) as [E0|_]; [lia|].
  cbn [String.eqb Ascii.eqb Bool.eqb].
  unfold SearchBox.item_at.
  destruct (Z.ltb_spec (SearchBox.highlighted st) 0) as [Hneg|_]; [lia|].
  rewrite E. reflexivity.
Qed.

Lemma enter_selects_the_highlighted_result_witness :
  SearchBox.onKeyDown "Enter" [Sample.tesla_record; Sample.motors_record]
    (SearchBox.mkState "tes" true 1)
  = (SearchBox.mkState "TESLA MOTORS INC" false 1,
     [SearchBox.PreventDefault; SearchBox.OnSelect Sample.motors_record]).
Proof.
  assert (Hin : SearchBox.inRange [Sample.tesla_record; Sample.motors_record]
                  (SearchBox.mkState "tes" true 1)).
  { unfold SearchBox.inRange. simpl. lia. }
  destruct (@enter_selects_the_highlighted_result
              [Sample.tesla_record; Sample.motors_record]
              (SearchBox.mkState "tes" true 1) eq_refl Hin) as (item & Hitem & Hkey).
  simpl in Hitem. inversion Hitem; subst item. exact Hkey.
Defined.

(** ** The status heuristic *)

Module StatusFacts.

Lemma containsCI_cons p a l :
  JSString.containsCI p (a :: l)
  = JSString.prefixCI p (a :: l) || JSString.containsCI p l.
Proof. reflexivity. Qed.

Lemma prefixCI_contains p l :
  JSString.prefixCI p l = true -> JSString.containsCI p l = true.
Proof.
  destruct l as [|a r]; intros H.
  - simpl. now rewrite H.
  - now rewrite containsCI_cons, H.
Qed.

Lemma containsCI_tail p a l :
  JSString.containsCI p l = true -> JSString.containsCI p (a :: l) = true.
Proof. intros H. rewrite containsCI_cons, H. apply orb_true_r. Qed.

(** A match of [pre ++ p] holds a match of [p]. *)
Lemma prefixCI_app pre : forall p l,
  JSString.prefixCI (pre ++ p) l = true -> JSString.containsCI p l = true.
Proof.
  induction pre as [|x pre IH]; intros p l H.
  - now apply prefixCI_contains.
  - destruct l as [|a r]; [discriminate H|].
    cbn [app JSString.prefixCI] in H. apply andb_prop in H as [_ H].
    apply containsCI_tail. now apply IH.
Qed.

Lemma containsCI_app pre p l :
  JSString.containsCI (pre ++ p) l = true -> JSString.containsCI p l = true.
Proof.
  induction l as [|a r IH]; intros H.
  - apply (prefixCI_app pre p []). simpl in H. now rewrite orb_false_r in H.
  - rewrite containsCI_cons in H. apply orb_prop in H as [H|H].
    + now apply (prefixCI_app pre).
    + apply containsCI_tail. now apply IH.
Qed.

Lemma statusPattern_nonempty s : statusPattern s = true -> s <> "".
Proof. intros H ->. discriminate H. Qed.

Lemma findStatus_Some P tds s :
  findStatus P tds = Return (Some s) ->
  s <> "" /\ JSString.trim s = s /\ statusPattern s = true.
Proof.
  intros H. apply findStatus_Return in H.
  destruct H as (before & td & after & _ & Hs & Hm & _).
  split; [now apply statusPattern_nonempty|].
  split; [|exact Hm]. subst s. apply JSStringFacts.trim_idem.
Qed.

End StatusFacts.

(** X21: the status of the record a row gives is the trimmed text of the
    first cell of that row, in document order and the name cell included,
    that matches the status pattern; the record has no status exactly when
    no cell of the row matches. *)
Theorem status_is_the_first_matching_cell :
  forall P base results tr r,
    rowCallback P base results tr = Return (results ++ [r])%list ->
    match status r with
    | Some s =>
        exists before td after,
          Dom.find "td" tr = (before ++ td :: after)%list /\
          s = JSString.trim (Dom.text [td]) /\
          statusPattern s = true /\
          Forall notStatus before
    | None => Forall notStatus (Dom.find "td" tr)
    end.
Proof.
  intros P base results tr r H.
  destruct (rowCallback_Return_inv P base results tr H)
    as [Hsame|(td0 & tds & st & Etd & _ & Hst & Hrs)].
  - apply (f_equal (@List.length SunbizResult)) in Hsame.
    rewrite length_app in Hsame. simpl in Hsame. lia.
  - apply app_inv_head in Hrs. inversion Hrs; subst r. cbn [status].
    rewrite Etd. now apply findStatus_Return in Hst.
Qed.

Lemma status_is_the_first_matching_cell_witness :
  rowCallback Sample.platform baseUrl [] Sample.tesla_row
  = Return [Sample.tesla_record] /\
  exists before td after,
    Dom.find "td" Sample.tesla_row = (before ++ td :: after)%list /\
    "ACTIVE" = JSString.trim (Dom.text [td]) /\
    statusPattern "ACTIVE" = true /\
    Forall notStatus before.
Proof.
  assert (H : rowCallback Sample.platform baseUrl [] Sample.tesla_row
              = Return ([] ++ [Sample.tesla_record])%list)
    by (vm_compute; reflexivity).
  split; [exact H|].
  exact (@status_is_the_first_matching_cell
           Sample.platform baseUrl [] Sample.tesla_row Sample.tesla_record H).
Defined.

(** X22: of the five alternatives of the status pattern two never decide:
    a text matches exactly when it contains "active", "inact" or "status",
    letter case aside, since "inactive" and "in active" contain "active". *)
Theorem status_pattern_has_three_effective_alternatives :
  forall txt,
    statusPattern txt
    = containsAlt "active" txt || containsAlt "inact" txt || containsAlt "status" txt.
Proof.
  intros txt. unfold statusPattern, containsAlt. cbn [existsb].
  set (l := list_ascii_of_string txt).
  assert (H1 : JSString.containsCI (list_ascii_of_string "inactive") l = true ->
               JSString.containsCI (list_ascii_of_string "active") l = true).
  { apply (StatusFacts.containsCI_app (list_ascii_of_string "in")
             (list_ascii_of_string "active")). }
  assert (H2 : JSString.containsCI (list_ascii_of_string "in active") l = true ->
               JSString.containsCI (list_ascii_of_string "active") l = true).
  { apply (StatusFacts.containsCI_app (list_ascii_of_string "in ")
             (list_ascii_of_string "active")). }
  destruct (JSString.containsCI (list_ascii_of_string "active") l);
    [reflexivity|].
  destruct (JSString.containsCI (list_ascii_of_string "inactive") l);
    [discriminate (H1 eq_refl)|].
  destruct (JSString.containsCI (list_ascii_of_string "in active") l);
    [discriminate (H2 eq_refl)|].
  cbn [orb]. now rewrite orb_false_r.
Qed.

Section FieldFacts.

Variable P : Platform.

Lemma orUndefined_trim t d :
  orUndefined (JSString.trim t) = Some d -> d <> "" /\ JSString.trim d = d.
Proof.
  unfold orUndefined. destruct (JSString.truthy (JSString.trim t)) eqn:E; [|discriminate].
  intros H; inversion H; subst d. now apply trimmed_name_wellNamed.
Qed.

Lemma rowCallback_fields baseUrl results tr rs :
  rowCallback P baseUrl results tr = Return rs ->
  rs = results \/ exists r, rs = (results ++ [r])%list /\ fieldsOk r.
Proof.
  intros H.
  destruct (rowCallback_Return_inv P baseUrl results tr H)
    as [->|(td0 & tds & st & Etd & _ & Hst & ->)]; [now left|].
  right. eexists. split; [reflexivity|].
  split; cbn [documentNumber status].
  - intros d Hd. destruct (nth_error (td0 :: tds) 1) as [td1|]; [|discriminate].
    now apply (orUndefined_trim (Dom.text [td1])).
  - intros s Hs. subst st. now apply StatusFacts.findStatus_Some in Hst.
Qed.

Lemma anchorCallback_fields baseUrl results a rs :
  anchorCallback P baseUrl results a = Return rs ->
  rs = results \/ exists r, rs = (results ++ [r])%list /\ fieldsOk r.
Proof.
  intros H.
  destruct (anchorCallback_Return_inv P baseUrl results a H)
    as [->|(h & u0 & _ & _ & _ & ->)]; [now left|].
  right. eexists. split; [reflexivity|].
  split; cbn [documentNumber status]; intros x Hx; discriminate Hx.
Qed.

Lemma parseSunbiz_fields html baseUrl rs :
  parseSunbiz P html baseUrl = Return rs -> Forall fieldsOk rs.
Proof.
  unfold parseSunbiz.
  destruct (each (rowCallback P baseUrl) []
              (Dom.select_table_tbody_tr (cheerio_load P html))) as [primary|e] eqn:Erows;
    [|discriminate].
  assert (Hrow : forall s x s',
             In x (Dom.select_table_tbody_tr (cheerio_load P html)) ->
             rowCallback P baseUrl s x = Return s' ->
             s' = s \/ exists r, s' = (s ++ [r])%list /\ fieldsOk r).
  { intros s x s' _. apply rowCallback_fields. }
  destruct (@each_appends _ _ _ _ _ Hrow [] primary Erows) as (added & Hadd & HP & _).
  simpl in Hadd. subst added.
  destruct (List.length primary =? 0)%nat eqn:El.
  - destruct primary; [|discriminate El]. intros H.
    assert (Hlink : forall s x s',
               In x (Dom.select_detail_anchors (cheerio_load P html)) ->
               anchorCallback P baseUrl s x = Return s' ->
               s' = s \/ exists r, s' = (s ++ [r])%list /\ fieldsOk r).
    { intros s x s' _. apply anchorCallback_fields. }
    destruct (@each_appends _ _ _ _ _ Hlink [] rs H) as (added & Hadd & HP2 & _).
    simpl in Hadd. now subst added.
  - intros H; inversion H; now subst.
Qed.

End FieldFacts.

(** X23: an optional field of a returned record is never an empty string:
    a document number, when present, is a non-empty trimmed text, and a
    status, when present, is a non-empty trimmed text that matches the
    status pattern. *)
Theorem optional_fields_are_absent_or_nonempty :
  forall P html base rs,
    parseSunbiz P html base = Return rs ->
    Forall fieldsOk rs.
Proof.
  intros P html base rs H. now apply (parseSunbiz_fields P html base).
Qed.

Lemma optional_fields_are_absent_or_nonempty_witness :
  Forall fieldsOk [Sample.tesla_record; Sample.motors_record].
Proof.
  exact (@optional_fields_are_absent_or_nonempty
           Sample.platform Sample.two_rows_html baseUrl
           [Sample.tesla_record; Sample.motors_record] parse_two_rows_run).
Defined.

(** ** The cache: storing under a key that is present *)

(** X24: storing under a key the map already holds replaces the entry
    where it stands: below capacity the keys and their order are unchanged,
    so the key keeps its rank for eviction. On a full map the oldest entry
    is evicted all the same, although no room is needed, and the map ends
    one entry smaller. *)
Theorem overwrite_keeps_position_and_still_evicts_when_full :
  forall key v now c,
    JSMap.wf c ->
    In key (JSMap.keys c) ->
    JSMap.get key (setCache key v now c) = Some (mkEntry v (now + CACHE_TTL_MS)) /\
    (JSMap.size c < CACHE_MAX_ENTRIES ->
     JSMap.keys (setCache key v now c) = JSMap.keys c) /\
    (forall k0 e0 r,
        c = (k0, e0) :: r -> k0 <> "" -> k0 <> key ->
        CACHE_MAX_ENTRIES <= JSMap.size c ->
        JSMap.keys (setCache key v now c) = JSMap.keys r /\
        JSMap.size (setCache key v now c) = JSMap.size c - 1).
Proof.
  intros key v now c Hwf Hin. split; [apply setCache_get_same|]. split.
  - intros Hsmall. rewrite (setCache_below_capacity key v now c Hsmall).
    now apply EvictionFacts.keys_set_present.
  - intros k0 e0 r -> Hk0 Hne Hfull.
    rewrite (setCache_at_capacity key v now Hwf Hk0 Hfull).
    assert (Hr : In key (JSMap.keys r)).
    { simpl in Hin. destruct Hin as [E|Hr]; [congruence | exact Hr]. }
    pose proof (EvictionFacts.keys_set_present key (mkEntry v (now + CACHE_TTL_MS)) r Hr) as Hk.
    split; [exact Hk|].
    unfold JSMap.size. rewrite <- (length_map fst (JSMap.set _ _ r)).
    unfold JSMap.keys in Hk. rewrite Hk, length_map. simpl List.length. lia.
Qed.

Lemma overwrite_keeps_position_and_still_evicts_when_full_witness :
  JSMap.keys (setCache "acme:7" [Sample.tesla_record] 9000
                (setCache "tesla:7" [] 1000 (setCache "acme:7" [] 0 [])))
  = JSMap.keys (setCache "tesla:7" [] 1000 (setCache "acme:7" [] 0 [])).
Proof.
  assert (Hwf : JSMap.wf (setCache "tesla:7" [] 1000 (setCache "acme:7" [] 0 []))).
  { apply nodup_fixed_NoDup. vm_compute. reflexivity. }
  assert (Hin : In "acme:7"
                  (JSMap.keys (setCache "tesla:7" [] 1000 (setCache "acme:7" [] 0 [])))).
  { vm_compute. now left. }
  assert (Hsmall : JSMap.size (setCache "tesla:7" [] 1000 (setCache "acme:7" [] 0 []))
                   < CACHE_MAX_ENTRIES) by (vm_compute; reflexivity).
  exact (proj1 (proj2 (@overwrite_keeps_position_and_still_evicts_when_full
                         "acme:7" [Sample.tesla_record] 9000
                         (setCache "tesla:7" [] 1000 (setCache "acme:7" [] 0 []))
                         Hwf Hin)) Hsmall).
Defined.
